(** * A backtesting engine for trading strategies: [strategy.py]

    Shallow embedding of [StrategyExecutor] (series smoothing and the
    back-test loop) and of [LinRegStrategy] (dual-window regression with a
    trailing stop), followed by the properties of the specification.

    Numbers.  The program computes on IEEE doubles (numpy [float64]).  Here
    every number is an exact rational in canonical form ([Qc]): rounding is
    idealised away, so a relation the specification states "within
    floating-point tolerance" is stated as an equality, and a refutation
    exhibits a gap that no rounding can explain.  Division by zero, which
    numpy answers with [inf] or [nan] and a warning, has the value 0 in [Qc]:
    the statements below write quotients as the code does, and those that
    depend on the value of one ask for a nonzero divisor.

    What exact rationals cannot show, that a positive double is rounded to
    zero, is shown on a second embedding of [StrategyExecutor], module [F64],
    which computes on binary64 numbers as the program does.

    Exceptions.  A Python exception is a value of [PyExc]; a computation that
    may raise returns [res].  The executor is a mutable object, so its methods
    are state transformers that return the state they leave behind also when
    they raise. *)

From Corelib Require Import PrimFloat.
From Stdlib Require Import List ZArith QArith Qcanon Bool Lia.
Import ListNotations.

Set Implicit Arguments.

(** ** Exceptions and results *)

Inductive PyExc : Type :=
| ValueError          (* np.interp: "array of sample points is empty" *)
| TypeError           (* polyfit: "expected non-empty vector for x" *)
| IndexError          (* subscript out of range *)
| UnboundLocalError   (* a local variable read before assignment *)
| Raised (tag : nat). (* any exception raised by a user strategy *)

Inductive res (A : Type) : Type :=
| Ok (a : A)
| Err (e : PyExc).

Arguments Ok {A} a.
Arguments Err {A} e.

Definition is_ok {A} (r : res A) : bool :=
  match r with Ok _ => true | Err _ => false end.

(** ** Numbers *)

Module Num.

Local Open Scope Qc_scope.

Definition of_Z (z : Z) : Qc := Q2Qc (inject_Z z).
Definition of_nat (n : nat) : Qc := of_Z (Z.of_nat n).
Definition half : Qc := Q2Qc (1 # 2).
Definition two : Qc := of_Z 2.
Definition hundred : Qc := of_Z 100.

Definition eqb (x y : Qc) : bool :=
  match x ?= y with Eq => true | _ => false end.
Definition ltb (x y : Qc) : bool :=
    match x ?= y with Lt => true | _ => false end.
Definition leb (x y : Qc) : bool :=
    match x ?= y with Gt => false | _ => true end.

  (** Python's [max(a, b)]: the first argument unless the second is larger. *)
Definition py_max (a b : Qc) : Qc := if ltb a b then b else a.

End Num.

(** ** Python sequences *)

Module Py.

Section Seq.
Variable A : Type.

    (** [l[i]] for [0 <= i]. *)
Definition index (l : list A) (i : nat) : res A :=
      match nth_error l i with
      | Some a => Ok a
      | None => Err IndexError
      end.

    (** [l[-1]]. *)
Fixpoint last (l : list A) : res A :=
      match l with
      | [] => Err IndexError
      | [a] => Ok a
      | _ :: l' => last l'
      end.

    (** [l[lo:hi]] for [0 <= lo], [0 <= hi]. *)
Definition slice (l : list A) (lo hi : nat) : list A :=
      firstn (hi - lo) (skipn lo l).

    (** [l[:k]] for any integer [k]: a negative stop counts from the end and
        is clamped at the start of the list. *)
Definition upto (l : list A) (k : Z) : list A :=
      let n := Z.of_nat (length l) in
      let stop := if (k <? 0)%Z then Z.max 0 (n + k) else Z.min k n in
      firstn (Z.to_nat stop) l.
End Seq.

End Py.

(** ** The numpy and scipy routines the program calls *)

Module Np.

Local Open Scope Qc_scope.

  (** [np.diff]. *)
Fixpoint diff (l : list Qc) : list Qc :=
    match l with
    | a :: l' =>
        match l' with
        | b :: _ => (b - a) :: diff l'
        | [] => []
        end
    | [] => []
    end.

  (** [np.indices((n,))[0]], as numbers. *)
Definition indices (n : nat) : list Qc := map Num.of_nat (seq 0 n).

  (** [np.linspace(start, stop, num)]: [num] points, both ends included. *)
Definition linspace (start stop : Qc) (num : nat) : list Qc :=
    let step := (stop - start) / Num.of_nat (num - 1) in
    map (fun i => Num.of_nat i * step + start) (seq 0 num).

  (** One sample of [np.interp] to the right of the knot [(x0, f0)]. *)
Fixpoint interp_from (x x0 f0 : Qc) (xp fp : list Qc) : Qc :=
    match xp, fp with
    | x1 :: xp', f1 :: fp' =>
        if Num.ltb x x1
        then (f1 - f0) / (x1 - x0) * (x - x0) + f0
        else interp_from x x1 f1 xp' fp'
    | _, _ => f0
    end.

  (** [np.interp(x, xp, fp)]: piecewise linear through the knots, constant
      outside them; no knots is a [ValueError]. *)
Definition interp (x xp fp : list Qc) : res (list Qc) :=
    match xp, fp with
    | x0 :: xp', f0 :: fp' =>
        Ok (map (fun v => if Num.ltb v x0 then f0
                          else interp_from v x0 f0 xp' fp') x)
    | _, _ => Err ValueError
    end.

  (** [scipy.integrate.cumtrapz(y, x)], the running sum starting at [acc]. *)
Fixpoint cumtrapz_from (acc : Qc) (y x : list Qc) : list Qc :=
    match y, x with
    | y0 :: y', x0 :: x' =>
        match y', x' with
        | y1 :: _, x1 :: _ =>
            let acc' := acc + (x1 - x0) * (y1 + y0) / Num.two in
            acc' :: cumtrapz_from acc' y' x'
        | _, _ => []
        end
    | _, _ => []
    end.

Definition cumtrapz (y x : list Qc) : list Qc := cumtrapz_from 0 y x.

End Np.

(** ** The smoothing step, [StrategyExecutor._smoothData]

    The pure part: what the method stores in [_x_smooth] and [_y_smooth], or
    the exception it raises before storing anything. *)

Local Open Scope Qc_scope.

Definition smooth (closings : list Qc) : res (list Qc * list Qc) :=
  let count := length closings in
  let diff_1 := Np.diff closings in
  let x_diff_1 := Np.indices (length diff_1) in
  let x_diff_1_int := Np.linspace 0 (Num.of_nat (length diff_1)) (count * 4) in
  match Np.interp x_diff_1_int x_diff_1 diff_1 with
  | Err e => Err e
  | Ok diff_1_int =>
      let integral := Np.cumtrapz diff_1_int x_diff_1_int in
      match Py.index closings 0 with
      | Err e => Err e
      | Ok c0 =>
          let closings_int := map (fun v => v + c0) integral in
          Ok (map (fun v => v + Num.half) (tl x_diff_1_int), closings_int)
      end
  end.

(** ** [StrategyMotion], [Strategy] and the state of a [StrategyExecutor] *)

Inductive StrategyMotion : Type := OPEN | CLOSE.

Definition is_motion (m : StrategyMotion) (r : option StrategyMotion) : bool :=
  match r, m with
  | Some OPEN, OPEN | Some CLOSE, CLOSE => true
  | _, _ => false
  end.

(** A ledger entry [(time, price, isOpen)]. *)
Definition Transaction : Type := (Qc * Qc * bool)%type.

Section Executor.

  (** The strategy objects live outside the executor, which only holds
      references to them: [W] is the store of all strategy objects, and a
      registered strategy is its bound method [tick], reading and writing that
      store.  Two references to one object are two copies of one method. *)
Variable W : Type.

Definition Strategy : Type :=
    W -> bool -> list Qc -> list Qc -> res (option StrategyMotion) * W.

Record StrategyExecutor : Type := mkExecutor {
    _usd : Qc;
    _token : Qc;
    _strategies : list Strategy;
    _transactions : list Transaction;
    _x_smooth : list Qc;
    _y_smooth : list Qc
  }.

  (** [StrategyExecutor.__init__]. *)
Definition init : StrategyExecutor := mkExecutor 0 0 [] [] [] [].

Definition addStrategy (strategy : Strategy) (self : StrategyExecutor)
    : StrategyExecutor :=
    mkExecutor (_usd self) (_token self) (_strategies self ++ [strategy])
               (_transactions self) (_x_smooth self) (_y_smooth self).

Definition getTransactions (self : StrategyExecutor) := _transactions self.
Definition getSmoothX (self : StrategyExecutor) := _x_smooth self.
Definition getSmoothY (self : StrategyExecutor) := _y_smooth self.

  (** *** Methods as state transformers *)

Definition State : Type := (StrategyExecutor * W)%type.
Definition M (A : Type) : Type := State -> res A * State.

Definition ret {A} (a : A) : M A := fun st => (Ok a, st).
Definition raise {A} (e : PyExc) : M A := fun st => (Err e, st).
Definition bind {A B} (c : M A) (k : A -> M B) : M B :=
    fun st =>
      match c st with
      | (Ok a, st') => k a st'
      | (Err e, st') => (Err e, st')
      end.
Definition lift {A} (r : res A) : M A := fun st => (r, st).

Notation "x <- c ;; k" := (bind c (fun x => k))
    (at level 61, c at next level, right associativity).
Notation "c ;; k" := (bind c (fun _ => k))
    (at level 61, right associativity).

Definition get {A} (field : StrategyExecutor -> A) : M A :=
    fun st => (Ok (field (fst st)), st).

Definition set_usd (v : Qc) : M unit :=
    fun st => let self := fst st in
      (Ok tt, (mkExecutor v (_token self) (_strategies self)
                 (_transactions self) (_x_smooth self) (_y_smooth self), snd st)).
Definition set_token (v : Qc) : M unit :=
    fun st => let self := fst st in
      (Ok tt, (mkExecutor (_usd self) v (_strategies self)
                 (_transactions self) (_x_smooth self) (_y_smooth self), snd st)).
Definition set_smooth (x y : list Qc) : M unit :=
    fun st => let self := fst st in
      (Ok tt, (mkExecutor (_usd self) (_token self) (_strategies self)
                 (_transactions self) x y, snd st)).
Definition append_transaction (t : Transaction) : M unit :=
    fun st => let self := fst st in
      (Ok tt, (mkExecutor (_usd self) (_token self) (_strategies self)
                 (_transactions self ++ [t]) (_x_smooth self) (_y_smooth self),
               snd st)).

  (** [strategy.tick(open, x, y)]: the only access to the store. *)
Definition call_tick (strategy : Strategy) (open : bool) (x y : list Qc)
    : M (option StrategyMotion) :=
    fun st => let (r, w) := strategy (snd st) open x y in (r, (fst st, w)).

  (** [for b in l: body(b)]. *)
Fixpoint for_each {B} (l : list B) (body : B -> M unit) : M unit :=
    match l with
    | [] => ret tt
    | b :: l' => body b ;; for_each l' body
    end.

  (** [_smoothData]: lines 28-38. *)
Definition _smoothData (closings : list Qc) : M unit :=
    xy <- lift (smooth closings) ;;
    set_smooth (fst xy) (snd xy).

  (** The body of the inner loop, lines 67-75, for one strategy. *)
Definition trade (fee : Qc) (index : nat) (x y : list Qc)
             (strategy : Strategy) : M unit :=
    token <- get _token ;;
    motion <- call_tick strategy (Num.ltb 0 token) x y ;;
    usd <- get _usd ;;
    if is_motion OPEN motion && Num.ltb 0 usd then
      price <- lift (Py.last y) ;;
      set_token (usd / price * (1 - fee)) ;;
      set_usd 0 ;;
      xs <- get _x_smooth ;;
      ys <- get _y_smooth ;;
      t <- lift (Py.index xs index) ;;
      p <- lift (Py.index ys index) ;;
      append_transaction (t, p, true)
    else if is_motion CLOSE motion && Num.ltb 0 token then
      price <- lift (Py.last y) ;;
      set_usd (token * price * (1 - fee)) ;;
      set_token 0 ;;
      xs <- get _x_smooth ;;
      ys <- get _y_smooth ;;
      t <- lift (Py.index xs index) ;;
      p <- lift (Py.index ys index) ;;
      append_transaction (t, p, false)
    else ret tt.

  (** One iteration of the outer loop, lines 63-75; it yields the window [y],
      which stays bound after the loop. *)
Definition iteration (fee : Qc) (index : nat) : M (list Qc) :=
    xs <- get _x_smooth ;;
    ys <- get _y_smooth ;;
    let x := Py.slice xs (index - 100) index in
    let y := Py.slice ys (index - 100) index in
    strategies <- get _strategies ;;
    for_each strategies (trade fee index x y) ;;
    ret y.

  (** [for index in range(...)], threading the local variable [y]: [None]
      while it is unbound. *)
Fixpoint loop (fee : Qc) (range : list nat) (y : option (list Qc))
    : M (option (list Qc)) :=
    match range with
    | [] => ret y
    | index :: range' =>
        y' <- iteration fee index ;;
        loop fee range' (Some y')
    end.

  (** Lines 77-79: the forced liquidation. *)
Definition liquidate (fee : Qc) (y : option (list Qc)) : M Qc :=
    usd <- get _usd ;;
    token <- get _token ;;
    window <- lift (match y with Some l => Ok l | None => Err UnboundLocalError end) ;;
    price <- lift (Py.last window) ;;
    set_usd (usd + token * price * (1 - fee)) ;;
    set_token 0 ;;
    get _usd.

  (** [range(a, b)]. *)
Definition py_range (a b : nat) : list nat := seq a (b - a).

  (** [StrategyExecutor.backtest], lines 55-79. *)
Definition backtest (fee : Qc) (closings : list Qc) : M (Qc * Qc) :=
    set_usd Num.hundred ;;
    set_token 0 ;;
    _smoothData closings ;;
    ys <- get _y_smooth ;;
    first <- lift (Py.index ys 0) ;;
    final <- lift (Py.last ys) ;;
    let baseline := Num.hundred / first * final * (1 - fee) ^ 2 in
    xs <- get _x_smooth ;;
    y <- loop fee (py_range 100 (length xs)) None ;;
    usd <- liquidate fee y ;;
    ret (baseline, usd).

End Executor.

Arguments init {W}.
Arguments ret {W A} a _.
Arguments lift {W A} r _.
Arguments get {W A} field _.

(** ** [LinRegStrategyParams] and [LinRegStrategy] *)

Record LinRegStrategyParams : Type := mkParams {
  sellTrendThreshold : Qc;
  buyTrendThreshold : Qc;
  shortTermWindow : Z;
  longTermWindow : Z;
  tradeFee : Qc;
  trailingMargin : Qc;
  lossMargin : Qc
}.

(** The class attributes of [LinRegStrategyParams]. *)
Definition default_params : LinRegStrategyParams :=
  mkParams Num.two Num.two 10 80 (Q2Qc (2 # 1000)) (Q2Qc (2 # 100)) (Q2Qc (1 # 100)).

Record LinRegStrategy : Type := mkLinReg {
  _params : LinRegStrategyParams;
  _sellBar : Qc
}.

(** [LinRegStrategy.__init__]. *)
Definition new_LinRegStrategy (params : LinRegStrategyParams) : LinRegStrategy :=
  mkLinReg params 0.

Section LinReg.

(** The two numeric kernels of numpy that [tick] calls are taken as given:
    [polyfit1 x y] are the coefficients [(c0, c1)] of the least-squares line
    through non-empty samples of equal length, [np_std] is the population
    standard deviation (a square root, so not a rational function).  What
    [polyfit] checks before it fits is modelled in [_fitLine]. *)
Variable polyfit1 : list Qc -> list Qc -> Qc * Qc.
Variable np_std : list Qc -> Qc.

(** [_fitLine], lines 97-99: [polyfit] refuses an empty [x] and samples of
    different lengths with a [TypeError]. *)
Definition _fitLine (x y : list Qc) : res (Qc * Qc) :=
  match x with
  | [] => Err TypeError
  | _ :: _ =>
      if Nat.eqb (length x) (length y)
      then let coeff := polyfit1 x y in Ok (snd coeff, fst coeff)
      else Err TypeError
  end.

Definition with_sellBar (self : LinRegStrategy) (v : Qc) : LinRegStrategy :=
  mkLinReg (_params self) v.

(** [LinRegStrategy.tick], lines 101-129. *)
Definition tick (self : LinRegStrategy) (open : bool) (times prices : list Qc)
  : res (option StrategyMotion) * LinRegStrategy :=
  let p := _params self in
  let xShort := Py.upto times (- shortTermWindow p) in
  let yShort := Py.upto prices (- shortTermWindow p) in
  match _fitLine xShort yShort with
  | Err e => (Err e, self)
  | Ok (mLinShort, bLinShort) =>
  let xLong := Py.upto times (- longTermWindow p) in
  let yLong := Py.upto prices (- longTermWindow p) in
  match _fitLine xLong yLong with
  | Err e => (Err e, self)
  | Ok (mLinLong, bLinLong) =>
  match Py.last times with
  | Err e => (Err e, self)
  | Ok t_last =>
  let yFit := mLinLong * t_last + bLinLong in
  let stdFit := np_std yLong in
  match Py.last prices with
  | Err e => (Err e, self)
  | Ok price =>
  if open && Num.leb price (_sellBar self) then (Ok (Some CLOSE), self)
  else
    let self1 :=
      with_sellBar self
        (Num.py_max (_sellBar self)
           ((1 - Num.two * tradeFee p - trailingMargin p) * price)) in
    let sellSignal :=
      Num.ltb (sellTrendThreshold p) (mLinLong - mLinShort)
      && Num.ltb price (yFit - stdFit) in
    let buySignal :=
      Num.ltb (buyTrendThreshold p) (mLinShort - mLinLong)
      && Num.ltb (yFit + stdFit) price in
    if sellSignal && open then (Ok (Some CLOSE), self1)
    else if buySignal && negb open then
      (Ok (Some OPEN),
       with_sellBar self1 (price * (1 - lossMargin p + Num.two * tradeFee p)))
    else (Ok None, self1)
  end end end end.

End LinReg.

(** ** [StrategyExecutor] on binary64 numbers

    The same methods, line by line, on the kernel's binary64 floats, rounded
    to nearest even as numpy's [float64] is.  The numpy routines are written
    with the operations in the order numpy performs them; [interp] leaves out
    numpy's fallback for a non-finite product, which finite series do not
    reach. *)

Module F64.

Local Open Scope float_scope.

(** The double of value [n], exact below 2^53. *)
Fixpoint of_nat (n : nat) : float :=
  match n with
  | O => 0
  | S k => of_nat k + 1
  end.

(** [np.diff]. *)
Fixpoint diff (l : list float) : list float :=
  match l with
  | a :: l' =>
      match l' with
      | b :: _ => (b - a) :: diff l'
      | [] => []
      end
  | [] => []
  end.

(** [np.indices((n,))[0]], as numbers. *)
Definition indices (n : nat) : list float := map of_nat (seq 0 n).

(** [np.linspace(start, stop, num)]: [arange(num) * step + start], or
    [arange(num) / div * delta + start] when the step is zero, with the last
    point set to [stop]. *)
Definition linspace (start stop : float) (num : nat) : list float :=
  let div := of_nat (num - 1) in
  let delta := stop - start in
  let step := delta / div in
  let point (i : nat) :=
    match num with
    | 0%nat | 1%nat => of_nat i * delta + start
    | _ =>
        if PrimFloat.eqb step 0 then of_nat i / div * delta + start
        else of_nat i * step + start
    end in
  match num with
  | 0%nat | 1%nat => map point (seq 0 num)
  | _ => map point (seq 0 (num - 1)) ++ [stop]
  end.

(** One sample of [np.interp] to the right of the knot [(x0, f0)]. *)
Fixpoint interp_from (x x0 f0 : float) (xp fp : list float) : float :=
  match xp, fp with
  | x1 :: xp', f1 :: fp' =>
      if PrimFloat.ltb x x1
      then if PrimFloat.eqb x0 x then f0
           else (f1 - f0) / (x1 - x0) * (x - x0) + f0
      else interp_from x x1 f1 xp' fp'
  | _, _ => f0
  end.

(** [np.interp(x, xp, fp)]. *)
Definition interp (x xp fp : list float) : res (list float) :=
  match xp, fp with
  | x0 :: xp', f0 :: fp' =>
      Ok (map (fun v => if PrimFloat.ltb v x0 then f0
                        else interp_from v x0 f0 xp' fp') x)
  | _, _ => Err ValueError
  end.

(** [scipy.integrate.cumtrapz(y, x)]: the running sum of
    [diff(x) * (y[1:] + y[:-1]) / 2.0]. *)
Fixpoint cumtrapz_from (acc : float) (y x : list float) : list float :=
  match y, x with
  | y0 :: y', x0 :: x' =>
      match y', x' with
      | y1 :: _, x1 :: _ =>
          let acc' := acc + (x1 - x0) * (y1 + y0) / 2 in
          acc' :: cumtrapz_from acc' y' x'
      | _, _ => []
      end
  | _, _ => []
  end.

Definition cumtrapz (y x : list float) : list float := cumtrapz_from 0 y x.

(** What [_smoothData] stores, lines 28-38. *)
Definition smooth (closings : list float) : res (list float * list float) :=
  let count := length closings in
  let diff_1 := diff closings in
  let x_diff_1 := indices (length diff_1) in
  let x_diff_1_int := linspace 0 (of_nat (length diff_1)) (count * 4) in
  match interp x_diff_1_int x_diff_1 diff_1 with
  | Err e => Err e
  | Ok diff_1_int =>
      let integral := cumtrapz diff_1_int x_diff_1_int in
      match Py.index closings 0 with
      | Err e => Err e
      | Ok c0 =>
          let closings_int := map (fun v => v + c0) integral in
          Ok (map (fun v => v + 0.5) (tl x_diff_1_int), closings_int)
      end
  end.

Section Executor.

Variable W : Type.

Definition Strategy : Type :=
  W -> bool -> list float -> list float -> res (option StrategyMotion) * W.

Record StrategyExecutor : Type := mkExecutor {
  _usd : float;
  _token : float;
  _strategies : list Strategy;
  _transactions : list (float * float * bool);
  _x_smooth : list float;
  _y_smooth : list float
}.

Definition init : StrategyExecutor := mkExecutor 0 0 [] [] [] [].

Definition addStrategy (strategy : Strategy) (self : StrategyExecutor)
  : StrategyExecutor :=
  mkExecutor (_usd self) (_token self) (_strategies self ++ [strategy])
             (_transactions self) (_x_smooth self) (_y_smooth self).

Definition State : Type := (StrategyExecutor * W)%type.
Definition M (A : Type) : Type := State -> res A * State.

Definition ret {A} (a : A) : M A := fun st => (Ok a, st).
Definition bind {A B} (c : M A) (k : A -> M B) : M B :=
  fun st =>
    match c st with
    | (Ok a, st') => k a st'
    | (Err e, st') => (Err e, st')
    end.
Definition lift {A} (r : res A) : M A := fun st => (r, st).

Notation "x <- c ;; k" := (bind c (fun x => k))
  (at level 61, c at next level, right associativity).
Notation "c ;; k" := (bind c (fun _ => k))
  (at level 61, right associativity).

Definition get {A} (field : StrategyExecutor -> A) : M A :=
  fun st => (Ok (field (fst st)), st).

Definition set_usd (v : float) : M unit :=
  fun st => let self := fst st in
    (Ok tt, (mkExecutor v (_token self) (_strategies self)
               (_transactions self) (_x_smooth self) (_y_smooth self), snd st)).
Definition set_token (v : float) : M unit :=
  fun st => let self := fst st in
    (Ok tt, (mkExecutor (_usd self) v (_strategies self)
               (_transactions self) (_x_smooth self) (_y_smooth self), snd st)).
Definition set_smooth (x y : list float) : M unit :=
  fun st => let self := fst st in
    (Ok tt, (mkExecutor (_usd self) (_token self) (_strategies self)
               (_transactions self) x y, snd st)).
Definition append_transaction (t : float * float * bool) : M unit :=
  fun st => let self := fst st in
    (Ok tt, (mkExecutor (_usd self) (_token self) (_strategies self)
               (_transactions self ++ [t]) (_x_smooth self) (_y_smooth self),
             snd st)).

Definition call_tick (strategy : Strategy) (open : bool) (x y : list float)
  : M (option StrategyMotion) :=
  fun st => let (r, w) := strategy (snd st) open x y in (r, (fst st, w)).

Fixpoint for_each {B} (l : list B) (body : B -> M unit) : M unit :=
  match l with
  | [] => ret tt
  | b :: l' => body b ;; for_each l' body
  end.

Definition _smoothData (closings : list float) : M unit :=
  xy <- lift (smooth closings) ;;
  set_smooth (fst xy) (snd xy).

(** Lines 67-75 for one strategy. *)
Definition trade (fee : float) (index : nat) (x y : list float)
           (strategy : Strategy) : M unit :=
  token <- get _token ;;
  motion <- call_tick strategy (PrimFloat.ltb 0 token) x y ;;
  usd <- get _usd ;;
  if is_motion OPEN motion && PrimFloat.ltb 0 usd then
    price <- lift (Py.last y) ;;
    set_token (usd / price * (1 - fee)) ;;
    set_usd 0 ;;
    xs <- get _x_smooth ;;
    ys <- get _y_smooth ;;
    t <- lift (Py.index xs index) ;;
    p <- lift (Py.index ys index) ;;
    append_transaction (t, p, true)
  else if is_motion CLOSE motion && PrimFloat.ltb 0 token then
    price <- lift (Py.last y) ;;
    set_usd (token * price * (1 - fee)) ;;
    set_token 0 ;;
    xs <- get _x_smooth ;;
    ys <- get _y_smooth ;;
    t <- lift (Py.index xs index) ;;
    p <- lift (Py.index ys index) ;;
    append_transaction (t, p, false)
  else ret tt.

(** Lines 63-75 for one index. *)
Definition iteration (fee : float) (index : nat) : M (list float) :=
  xs <- get _x_smooth ;;
  ys <- get _y_smooth ;;
  let x := Py.slice xs (index - 100) index in
  let y := Py.slice ys (index - 100) index in
  strategies <- get _strategies ;;
  for_each strategies (trade fee index x y) ;;
  ret y.

Fixpoint loop (fee : float) (range : list nat) (y : option (list float))
  : M (option (list float)) :=
  match range with
  | [] => ret y
  | index :: range' =>
      y' <- iteration fee index ;;
      loop fee range' (Some y')
  end.

(** Lines 77-79. *)
Definition liquidate (fee : float) (y : option (list float)) : M float :=
  usd <- get _usd ;;
  token <- get _token ;;
  window <- lift (match y with Some l => Ok l | None => Err UnboundLocalError end) ;;
  price <- lift (Py.last window) ;;
  set_usd (usd + token * price * (1 - fee)) ;;
  set_token 0 ;;
  get _usd.

(** [StrategyExecutor.backtest], lines 55-79. *)
Definition backtest (fee : float) (closings : list float) : M (float * float) :=
  set_usd 100 ;;
  set_token 0 ;;
  _smoothData closings ;;
  ys <- get _y_smooth ;;
  first <- lift (Py.index ys 0) ;;
  final <- lift (Py.last ys) ;;
  let baseline := 100 / first * final * ((1 - fee) * (1 - fee)) in
  xs <- get _x_smooth ;;
  y <- loop fee (py_range 100 (length xs)) None ;;
  usd <- liquidate fee y ;;
  ret (baseline, usd).

End Executor.

Arguments init {W}.

(** Two strategies without state: one always asks to open, one always asks
    to close. *)
Definition opening_tick : Strategy unit := fun w _ _ _ => (Ok (Some OPEN), w).
Definition closing_tick : Strategy unit := fun w _ _ _ => (Ok (Some CLOSE), w).

(** A flat series of 200 closings at the price 1, and the run on it of the
    two strategies above, the opening one registered first, at the fee 0.5. *)
Definition flat_closings : list float := repeat 1 200.

Definition halving_run : res (float * float) * State unit :=
  backtest 0.5 flat_closings
    (addStrategy closing_tick (addStrategy opening_tick init), tt).

(** A strategy object holding one flag; its [tick] answers [OPEN] the first
    time it is called and nothing afterwards. *)
Definition stub_tick : Strategy bool :=
  fun fired _ _ _ => if fired then (Ok None, true) else (Ok (Some OPEN), true).

(** Positive closings, 25 times 26725 and then 5507.00000000001 (the double
    written below), whose smoothed price at index 101 is the double 0; and
    the run on them of the strategy above at the fee 0. *)
Definition cancelling_closings : list float :=
  repeat 26725 25 ++ [0x1.583000000000bp+12].

Definition cancelling_run : res (float * float) * State bool :=
  backtest 0 cancelling_closings (addStrategy stub_tick init, false).

End F64.

(** ** Scenario data of the specification *)

(** Scenario A: 50 equally spaced closings from 100 to 200. *)
Definition scenarioA_closings : list Qc :=
  Np.linspace Num.hundred (Num.of_Z 200) 50.

(** Scenario B: a strategy object holding one flag; its [tick] answers [OPEN]
    the first time it is called and nothing afterwards. *)
Definition stub_tick : Strategy bool :=
  fun fired _ _ _ => if fired then (Ok None, true) else (Ok (Some OPEN), true).

(** A strategy that answers [OPEN] at its first tick and raises at every
    later one. *)
Definition raising_tick : Strategy bool :=
  fun fired _ _ _ =>
    if fired then (Err (Raised 0), true) else (Ok (Some OPEN), true).

(** What the smoothing step makes of Scenario A. *)
Definition scenarioA_smoothed : list Qc * list Qc :=
  match smooth scenarioA_closings with
  | Ok xy => xy
  | Err _ => ([], [])
  end.

(** The executor of Scenario B before its run: one registered stub whose
    flag is still down. *)
Definition scenarioB_start : State bool := (addStrategy stub_tick init, false).

(** ** Vocabulary of the properties *)

(** The uniform grid of [count * 4] points that spans [[0, count - 1]]. *)
Definition grid (count : nat) : list Qc :=
  Np.linspace 0 (Num.of_nat (count - 1)) (count * 4).

(** [progression a delta n]: the [n] closings [a, a + delta, a + 2 delta, ...]. *)
Fixpoint progression (a delta : Qc) (n : nat) : list Qc :=
  match n with
  | O => []
  | S n' => a :: progression (a + delta) delta n'
  end.

(** The window that is bound to [y] when the loop over [range] ends. *)
Definition last_window (ys : list Qc) (range : list nat) (y0 : option (list Qc))
  : option (list Qc) :=
  fold_left (fun _ index => Some (Py.slice ys (index - 100) index)) range y0.

Section Vocabulary.

Variable W : Type.

(** Partial-correctness triples that also speak about the state left by an
    exception: from a state in [P], the computation either returns [a] in a
    state satisfying [Q a], or raises in a state satisfying [E]. *)
Definition triple {A} (P : State W -> Prop) (c : M W A)
           (Q : A -> State W -> Prop) (E : State W -> Prop) : Prop :=
  forall st, P st ->
    match c st with
    | (Ok a, st') => Q a st'
    | (Err _, st') => E st'
    end.


(** The executor with its portfolio fields overwritten. *)
Definition with_portfolio (usd token : Qc) (self : StrategyExecutor W)
  : StrategyExecutor W :=
  mkExecutor usd token (_strategies self) (_transactions self)
             (_x_smooth self) (_y_smooth self).

(** The executor as lines 56-58 leave it when the smoothing succeeds. *)
Definition started (xs ys : list Qc) (self : StrategyExecutor W)
  : StrategyExecutor W :=
  mkExecutor Num.hundred 0 (_strategies self) (_transactions self) xs ys.

(** [tick_chain ss w w']: the store [w'] results from [w] by calls of [tick]
    on strategies of [ss] and by nothing else; the first call, if any, is
    made on [w] itself. *)
Inductive tick_chain (ss : list (Strategy W)) : W -> W -> Prop :=
| chain_done : forall w, tick_chain ss w w
| chain_tick : forall s w open x y w',
    In s ss -> tick_chain ss (snd (s w open x y)) w' -> tick_chain ss w w'.

(** What relates the state [st0] a method is called in to a later state
    [st]: same registered strategies, a ledger that only grew, and a store
    changed through [tick] only. *)
Definition frame (st0 st : State W) : Prop :=
  _strategies (fst st) = _strategies (fst st0) /\
  (exists added, _transactions (fst st) = _transactions (fst st0) ++ added) /\
  tick_chain (_strategies (fst st0)) (snd st0) (snd st).

(** [frame stB] together with fixed smoothed series: what everything that
    runs after a state [stB] of the loop keeps. *)
Definition kept (xs ys : list Qc) (stB : State W) : State W -> Prop :=
  fun st => frame stB st /\ _x_smooth (fst st) = xs /\ _y_smooth (fst st) = ys.

(** The states a run of [backtest fee closings] from [st0] can be observed
    in between trades: the state in which the loop starts, and the state any
    execution of the inner loop body leaves, at an index of the loop, for a
    registered strategy, with the windows [iteration] computes. *)
Inductive observable (fee : Qc) (closings : list Qc) (st0 : State W)
  : State W -> Prop :=
| obs_start : forall xs ys,
    smooth closings = Ok (xs, ys) ->
    observable fee closings st0 (started xs ys (fst st0), snd st0)
| obs_trade : forall st index strategy,
    observable fee closings st0 st ->
    In index (py_range 100 (length (_x_smooth (fst st)))) ->
    In strategy (_strategies (fst st)) ->
    observable fee closings st0
      (snd (trade fee index
              (Py.slice (_x_smooth (fst st)) (index - 100) index)
              (Py.slice (_y_smooth (fst st)) (index - 100) index)
              strategy st)).

(** The loop of [backtest] written out over given smoothed series, for
    comparison with the code: one call of [tick] on the window
    [index-100:index] of both series, a purchase or a sale at the price
    [ys[index - 1]], and a ledger entry with the time [xs[index]] and the price
    [ys[index]]. *)
Definition step_at (fee : Qc) (xs ys : list Qc) (index : nat) (s : Strategy W)
           (st : State W) : res unit * State W :=
  let self := fst st in
  let rw := s (snd st) (Num.ltb 0 (_token self))
              (Py.slice xs (index - 100) index)
              (Py.slice ys (index - 100) index) in
  match fst rw with
  | Err e => (Err e, (self, snd rw))
  | Ok m =>
      if is_motion OPEN m && Num.ltb 0 (_usd self) then
        (Ok tt,
         (mkExecutor 0 (_usd self / nth (index - 1) ys 0 * (1 - fee))
            (_strategies self)
            (_transactions self ++ [(nth index xs 0, nth index ys 0, true)])
            xs ys, snd rw))
      else if is_motion CLOSE m && Num.ltb 0 (_token self) then
        (Ok tt,
         (mkExecutor (_token self * nth (index - 1) ys 0 * (1 - fee)) 0
            (_strategies self)
            (_transactions self ++ [(nth index xs 0, nth index ys 0, false)])
            xs ys, snd rw))
      else (Ok tt, (self, snd rw))
  end.

(** [step_at] for the strategies [ss] in turn, up to the first exception. *)
Fixpoint steps_at (fee : Qc) (xs ys : list Qc) (index : nat)
         (ss : list (Strategy W)) (st : State W) : res unit * State W :=
  match ss with
  | [] => (Ok tt, st)
  | s :: ss' =>
      match step_at fee xs ys index s st with
      | (Ok _, st1) => steps_at fee xs ys index ss' st1
      | (Err e, st1) => (Err e, st1)
      end
  end.

(** [steps_at] for the indices of [range] in turn. *)
Fixpoint run_at (fee : Qc) (xs ys : list Qc) (range : list nat)
         (ss : list (Strategy W)) (st : State W) : res unit * State W :=
  match range with
  | [] => (Ok tt, st)
  | index :: range' =>
      match steps_at fee xs ys index ss st with
      | (Ok _, st1) => run_at fee xs ys range' ss st1
      | (Err e, st1) => (Err e, st1)
      end
  end.

End Vocabulary.

(** The binary64 smoothed series of [closings], empty when the smoothing
    raises. *)
Definition F64_smoothed (closings : list float) : list float * list float :=
  match F64.smooth closings with
  | Ok xy => xy
  | Err _ => ([], [])
  end.

(** ** Vocabulary of the further properties *)

(** The distance of two consecutive points of the uniform grid of [count]
    closings. *)
Definition time_step (count : nat) : Qc :=
  Num.of_nat (count - 1) / Num.of_nat (count * 4 - 1).

(** The smoothed series of [closings], empty when the smoothing raises. *)
Definition smoothed (closings : list Qc) : list Qc * list Qc :=
  match smooth closings with
  | Ok xy => xy
  | Err _ => ([], [])
  end.

(** [alternates expect l]: the entries of [l] are alternately opening and
    closing ones, the first being opening iff [expect]. *)
Fixpoint alternates (expect : bool) (l : list Transaction) : bool :=
  match l with
  | [] => true
  | t :: l' => Bool.eqb (snd t) expect && alternates (negb expect) l'
  end.

(** Whether an even number of entries was added: the next one is to open. *)
Fixpoint open_next (l : list Transaction) : bool :=
  match l with
  | [] => true
  | _ :: l' => negb (open_next l')
  end.

(** The entry [t] was taken from the smoothed series at a loop index. *)
Definition recorded_at (xs ys : list Qc) (t : Transaction) : Prop :=
  exists i, (100 <= i < length xs)%nat /\
            fst (fst t) = nth i xs 0 /\ snd (fst t) = nth i ys 0.

(** Neither cash nor tokens are owed. *)
Definition nonnegative (W : Type) (self : StrategyExecutor W) : Prop :=
  0 <= _usd self /\ 0 <= _token self.

(** Two strategies without state: one always asks to open, one always asks
    to close. *)
Definition opening_tick : Strategy unit := fun w _ _ _ => (Ok (Some OPEN), w).
Definition closing_tick : Strategy unit := fun w _ _ _ => (Ok (Some CLOSE), w).

(** * Properties *)

(** ** Facts about numbers and sequences *)

Lemma ltb_lt (x y : Qc) : Num.ltb x y = true <-> x < y.
Proof.
  unfold Num.ltb. rewrite Qclt_alt.
  destruct (x ?= y); split; congruence.
Qed.

Lemma leb_le (x y : Qc) : Num.leb x y = true <-> x <= y.
Proof.
  unfold Num.leb. rewrite Qcle_alt.
  destruct (x ?= y); split; congruence.
Qed.

Lemma eqb_neq (x y : Qc) : Num.eqb x y = false -> x <> y.
Proof.
  unfold Num.eqb. intros H E. apply Qceq_alt in E. rewrite E in H. discriminate.
Qed.

Lemma eqb_eq (x y : Qc) : Num.eqb x y = true -> x = y.
Proof.
  unfold Num.eqb. intros H. apply Qceq_alt. now destruct (x ?= y).
Qed.

Lemma ltb_irrefl (x : Qc) : Num.ltb x x = false.
Proof.
  destruct (Num.ltb x x) eqn:E; [|reflexivity].
  apply ltb_lt in E. exfalso. revert E. apply Qcle_not_lt, Qcle_refl.
Qed.

Lemma ltb_0_neq (x : Qc) : Num.ltb 0 x = true -> x <> 0.
Proof.
  intros H E. subst x. rewrite ltb_irrefl in H. discriminate.
Qed.

Lemma two_is_double : Num.two = 1 + 1.
Proof. apply Qc_is_canon. reflexivity. Qed.

Lemma half_of_double (v w : Qc) : w * (v + v) / Num.two = w * v.
Proof. rewrite two_is_double. field. discriminate. Qed.

Lemma last_nth (A : Type) (d : A) (l : list A) :
  l <> [] -> Py.last l = Ok (nth (length l - 1)%nat l d).
Proof.
  induction l as [|a [|b l'] IH]; intros H.
  - congruence.
  - reflexivity.
  - change (Py.last (a :: b :: l')) with (Py.last (b :: l')).
    rewrite IH by discriminate. simpl. now rewrite Nat.sub_0_r.
Qed.

Lemma slice_length (A : Type) (l : list A) (lo hi : nat) :
  (hi <= length l)%nat -> length (Py.slice l lo hi) = (hi - lo)%nat.
Proof.
  intros H. unfold Py.slice. rewrite length_firstn, length_skipn. lia.
Qed.

Lemma slice_nth (A : Type) (d : A) (l : list A) (lo hi i : nat) :
  (i < hi - lo)%nat -> nth i (Py.slice l lo hi) d = nth (lo + i) l d.
Proof.
  intros H. unfold Py.slice.
  rewrite nth_firstn. destruct (Nat.ltb_spec i (hi - lo)); [|lia].
  now rewrite nth_skipn.
Qed.

(** The last element of a window [l[index-100:index]] is [l[index-1]]. *)
Lemma window_last (l : list Qc) (index : nat) :
  (100 <= index <= length l)%nat ->
  Py.last (Py.slice l (index - 100) index) = Ok (nth (index - 1) l 0).
Proof.
  intros H.
  assert (L : length (Py.slice l (index - 100) index) = 100%nat)
    by (rewrite slice_length; lia).
  rewrite (last_nth 0).
  - rewrite L, slice_nth by lia. f_equal. f_equal. lia.
  - intros E. rewrite E in L. discriminate.
Qed.

Lemma index_nth (A : Type) (d : A) (l : list A) (i : nat) :
  (i < length l)%nat -> Py.index l i = Ok (nth i l d).
Proof.
  intros H. unfold Py.index.
  destruct (nth_error l i) eqn:E.
  - now rewrite (nth_error_nth _ _ d E).
  - apply nth_error_None in E. lia.
Qed.

(** ** The smoothing step *)

Lemma diff_length (l : list Qc) : length (Np.diff l) = (length l - 1)%nat.
Proof.
  induction l as [|a [|b l'] IH]; try reflexivity.
  change (Np.diff (a :: b :: l')) with ((b - a) :: Np.diff (b :: l')).
  simpl length in *. lia.
Qed.

Lemma linspace_length (a b : Qc) (n : nat) : length (Np.linspace a b n) = n.
Proof. unfold Np.linspace. now rewrite length_map, length_seq. Qed.

Lemma linspace_nth (a b : Qc) (n i : nat) :
  (i < n)%nat ->
  nth i (Np.linspace a b n) 0 = Num.of_nat i * ((b - a) / Num.of_nat (n - 1)) + a.
Proof.
  intros H. unfold Np.linspace.
  set (f := fun i : nat => Num.of_nat i * ((b - a) / Num.of_nat (n - 1)) + a).
  rewrite (nth_indep _ 0 (f 0%nat)) by now rewrite length_map, length_seq.
  rewrite map_nth, seq_nth by assumption. reflexivity.
Qed.

Lemma cumtrapz_from_cons (acc y0 y1 x0 x1 : Qc) (y' x' : list Qc) :
  Np.cumtrapz_from acc (y0 :: y1 :: y') (x0 :: x1 :: x') =
  (acc + (x1 - x0) * (y1 + y0) / Num.two)
    :: Np.cumtrapz_from (acc + (x1 - x0) * (y1 + y0) / Num.two) (y1 :: y') (x1 :: x').
Proof. reflexivity. Qed.

Lemma cumtrapz_from_length (y x : list Qc) (acc : Qc) :
  length y = length x -> length (Np.cumtrapz_from acc y x) = (length y - 1)%nat.
Proof.
  revert x acc. induction y as [|y0 [|y1 y'] IH]; intros x acc H.
  - reflexivity.
  - destruct x as [|x0 [|x1 x']]; reflexivity.
  - destruct x as [|x0 [|x1 x']]; try discriminate.
    rewrite cumtrapz_from_cons. cbn [length] in *.
    rewrite IH by (cbn [length]; lia). cbn [length]. lia.
Qed.

(** What [smooth] returns on at least two closings, step by step. *)
Lemma smooth_ok (closings : list Qc) :
  (2 <= length closings)%nat ->
  exists d0 ds c0 di,
    Np.diff closings = d0 :: ds /\
    Py.index closings 0 = Ok c0 /\
    Np.interp (Np.linspace 0 (Num.of_nat (length closings - 1)) (length closings * 4))
              (Np.indices (length closings - 1)) (d0 :: ds) = Ok di /\
    length di = (length closings * 4)%nat /\
    smooth closings =
      Ok (map (fun v => v + Num.half)
              (tl (Np.linspace 0 (Num.of_nat (length closings - 1)) (length closings * 4))),
          map (fun v => v + c0)
              (Np.cumtrapz di (Np.linspace 0 (Num.of_nat (length closings - 1))
                                           (length closings * 4)))).
Proof.
  intros H.
  destruct closings as [|c0 [|c1 cl]]; try (simpl in H; lia).
  pose proof (diff_length (c0 :: c1 :: cl)) as DL.
  destruct (Np.diff (c0 :: c1 :: cl)) as [|d0 ds] eqn:ED; [simpl in DL; lia|].
  unfold smooth. rewrite ED, DL.
  set (grid := Np.linspace 0 _ _).
  assert (EI : exists k, Np.indices (length (c0 :: c1 :: cl) - 1) = Num.of_nat 0 :: k).
  { simpl length. simpl Nat.sub. unfold Np.indices. simpl. eauto. }
  destruct EI as [k EI]. rewrite EI. unfold Np.interp.
  exists d0, ds, c0. eexists. repeat split.
  - rewrite length_map. apply linspace_length.
Qed.

Lemma smooth_short (closings : list Qc) :
  (length closings < 2)%nat -> smooth closings = Err ValueError.
Proof.
  intros H. destruct closings as [|c0 [|c1 cl]]; try reflexivity.
  simpl in H. lia.
Qed.

Lemma smooth_lengths (closings xs ys : list Qc) :
  smooth closings = Ok (xs, ys) ->
  (2 <= length closings)%nat /\
  length xs = (4 * length closings - 1)%nat /\
  length ys = (4 * length closings - 1)%nat.
Proof.
  intros H.
  destruct (Nat.lt_ge_cases (length closings) 2) as [S|S].
  - rewrite smooth_short in H by assumption. discriminate.
  - destruct (smooth_ok closings S) as (d0 & ds & c0 & di & _ & _ & _ & L & E).
    rewrite E in H. injection H as <- <-. split; [assumption|].
    rewrite !length_map. unfold Np.cumtrapz.
    rewrite cumtrapz_from_length by now rewrite linspace_length.
    rewrite L. split; [|lia].
    pose proof (linspace_length 0 (Num.of_nat (length closings - 1)) (length closings * 4)) as G.
    destruct (Np.linspace _ _ _); simpl in *; lia.
Qed.

Lemma map_nth_in (f : Qc -> Qc) (l : list Qc) (i : nat) :
  (i < length l)%nat -> nth i (map f l) 0 = f (nth i l 0).
Proof.
  intros H. rewrite (nth_indep _ 0 (f 0)) by now rewrite length_map.
  apply map_nth.
Qed.

Lemma nth_tl (l : list Qc) (i : nat) : nth i (tl l) 0 = nth (S i) l 0.
Proof. destruct l; [destruct i|]; reflexivity. Qed.

Lemma length_tl (l : list Qc) : length (tl l) = (length l - 1)%nat.
Proof. destruct l; simpl; lia. Qed.

Lemma grid_nth (count i : nat) :
  (i < count * 4)%nat ->
  nth i (grid count) 0 =
  Num.of_nat i * (Num.of_nat (count - 1) / Num.of_nat (count * 4 - 1)).
Proof.
  intros H. unfold grid. rewrite linspace_nth by assumption.
  unfold Qcdiv. ring.
Qed.

(** C6. For every closings sequence of length N >= 2 the smoothing step
    returns [x_smooth] and [y_smooth] of length exactly 4N - 1 each, and
    [x_smooth[i]] is the (i+1)-th point of the uniform grid of 4N points on
    [[0, N-1]], that is (i+1)(N-1)/(4N-1), plus one half. *)
Theorem smooth_length_law (closings : list Qc) :
  (2 <= length closings)%nat ->
  exists xs ys,
    smooth closings = Ok (xs, ys) /\
    length xs = (4 * length closings - 1)%nat /\
    length ys = (4 * length closings - 1)%nat /\
    forall i, (i < 4 * length closings - 1)%nat ->
      nth i xs 0 = nth (S i) (grid (length closings)) 0 + Num.half /\
      nth (S i) (grid (length closings)) 0 =
        Num.of_nat (S i) *
        (Num.of_nat (length closings - 1) / Num.of_nat (length closings * 4 - 1)).
Proof.
  intros H.
  destruct (smooth_ok closings H) as (d0 & ds & c0 & di & _ & _ & _ & _ & E).
  fold (grid (length closings)) in E.
  destruct (smooth_lengths _ E) as (_ & Lx & Ly).
  eexists. eexists. split; [exact E|]. split; [exact Lx|]. split; [exact Ly|].
  intros i Hi. split.
  - rewrite map_nth_in.
    + now rewrite nth_tl.
    + rewrite length_tl. unfold grid. rewrite linspace_length. lia.
  - apply grid_nth. lia.
Qed.

Lemma smooth_length_law_witness :
  exists xs ys,
    smooth [Num.of_Z 3; Num.of_Z 5] = Ok (xs, ys) /\
    length xs = 7%nat /\ length ys = 7%nat /\
    forall i, (i < 7)%nat ->
      nth i xs 0 = nth (S i) (grid 2) 0 + Num.half /\
      nth (S i) (grid 2) 0 = Num.of_nat (S i) * (Num.of_nat 1 / Num.of_nat 7).
Proof.
  apply (smooth_length_law [Num.of_Z 3; Num.of_Z 5]). simpl. lia.
Defined.

(** *** Arithmetic progressions *)

Lemma progression_length (a delta : Qc) (n : nat) :
  length (progression a delta n) = n.
Proof. revert a. induction n; intros a; simpl; [reflexivity|now rewrite IHn]. Qed.

Lemma progression_diff (a delta : Qc) (n : nat) :
  Np.diff (progression a delta (S n)) = repeat delta n.
Proof.
  revert a. induction n as [|n IH]; intros a; [reflexivity|].
  change (Np.diff (progression a delta (S (S n))))
    with ((a + delta - a) :: Np.diff (progression (a + delta) delta (S n))).
  rewrite IH. simpl. f_equal. ring.
Qed.

Lemma interp_from_const (delta x x0 : Qc) (xp : list Qc) (n : nat) :
  Np.interp_from x x0 delta xp (repeat delta n) = delta.
Proof.
  revert x0 n. induction xp as [|x1 xp IH]; intros x0 n; [reflexivity|].
  destruct n as [|n]; [reflexivity|]. simpl.
  destruct (Num.ltb x x1); [|apply IH].
  unfold Qcdiv. ring.
Qed.

Lemma interp_const (delta : Qc) (x xp : list Qc) (n : nat) (di : list Qc) :
  Np.interp x xp (repeat delta n) = Ok di -> di = repeat delta (length x).
Proof.
  unfold Np.interp. destruct xp as [|x0 xp]; [discriminate|].
  destruct n as [|n]; [discriminate|]. simpl.
  intros H. injection H as <-.
  induction x as [|v x IH]; [reflexivity|]. simpl. f_equal; [|exact IH].
  destruct (Num.ltb v x0); [reflexivity|apply interp_from_const].
Qed.

(** The running trapezoid sum of a constant is that constant times the
    distance covered. *)
Lemma cumtrapz_from_const (delta : Qc) (x : list Qc) (x0 acc : Qc) (i : nat) :
  (i < length x)%nat ->
  nth i (Np.cumtrapz_from acc (repeat delta (S (length x))) (x0 :: x)) 0 =
  acc + delta * (nth i x 0 - x0).
Proof.
  revert x0 acc i. induction x as [|x1 x IH]; intros x0 acc i H.
  - simpl in H. lia.
  - cbn [length repeat]. rewrite cumtrapz_from_cons.
    rewrite half_of_double.
    destruct i as [|i].
    + simpl. ring.
    + cbn [nth]. change (delta :: repeat delta (length x))
        with (repeat delta (S (length x))).
      rewrite IH by (simpl in H; lia). ring.
Qed.

Lemma grid_cons (count : nat) :
  (0 < count)%nat -> exists gs, grid count = 0 :: gs /\ length gs = (count * 4 - 1)%nat.
Proof.
  intros H. pose proof (linspace_length 0 (Num.of_nat (count - 1)) (count * 4)) as L.
  pose proof (@grid_nth count 0) as G. fold (grid count) in L.
  destruct (grid count) as [|g0 gs]; [simpl in L; lia|].
  exists gs. split; [|simpl in L; lia].
  simpl in G. rewrite G by lia. f_equal.
  change (Num.of_nat 0) with 0. ring.
Qed.

(** The smoothed curve of an arithmetic progression, point by point. *)
Lemma smooth_progression (a delta : Qc) (n : nat) :
  (2 <= n)%nat ->
  exists xs ys,
    smooth (progression a delta n) = Ok (xs, ys) /\
    length xs = (4 * n - 1)%nat /\ length ys = (4 * n - 1)%nat /\
    forall i, (i < 4 * n - 1)%nat ->
      nth i xs 0 = nth (S i) (grid n) 0 + Num.half /\
      nth i ys 0 = a + delta * nth (S i) (grid n) 0.
Proof.
  intros H.
  pose proof (progression_length a delta n) as PL.
  assert (H' : (2 <= length (progression a delta n))%nat) by now rewrite PL.
  destruct (smooth_ok _ H') as (d0 & ds & c0 & di & ED & EC & EI & L & E).
  rewrite PL in *. fold (grid n) in E, EI.
  destruct n as [|m]; [lia|].
  rewrite progression_diff in ED. rewrite <- ED in EI.
  apply interp_const in EI.
  unfold grid in EI at 1. rewrite linspace_length in EI.
  simpl in EC. injection EC as <-.
  destruct (@grid_cons (S m)) as (gs & EG & LG); [lia|].
  exists (map (fun v => v + Num.half) (tl (grid (S m)))),
         (map (fun v => v + a) (Np.cumtrapz di (grid (S m)))).
  split; [exact E|].
  destruct (smooth_lengths _ E) as (_ & Lx & Ly). rewrite PL in Lx, Ly.
  split; [exact Lx|]. split; [exact Ly|].
  intros i Hi. split.
  - rewrite map_nth_in; [now rewrite nth_tl|].
    rewrite length_tl. unfold grid. rewrite linspace_length. lia.
  - rewrite map_nth_in by (rewrite length_map in Ly; lia).
    unfold Np.cumtrapz. rewrite EI, EG.
    replace (S m * 4)%nat with (S (length gs)) by lia.
    rewrite cumtrapz_from_const by lia.
    cbn [nth]. ring.
Qed.

(** C8 (as the code has it). For closings in exact arithmetic progression
    [a, a + delta, ...] of length N >= 2, every smoothed point satisfies
    [y_smooth[i] = a + delta * (x_smooth[i] - 1/2)]: the curve has the
    input's slope and passes through the input's line at the grid abscissa
    [x_smooth[i] - 1/2], so in the coordinates [(x_smooth, y_smooth)] it is the
    input's line shifted by half a sample. *)
Theorem smooth_progression_shifted_line (a delta : Qc) (n : nat) :
  (2 <= n)%nat ->
  exists xs ys,
    smooth (progression a delta n) = Ok (xs, ys) /\
    forall i, (i < 4 * n - 1)%nat ->
      nth i ys 0 = a + delta * (nth i xs 0 - Num.half).
Proof.
  intros H.
  destruct (smooth_progression a delta H) as (xs & ys & E & _ & _ & P).
  exists xs, ys. split; [exact E|].
  intros i Hi. destruct (P i Hi) as [Px Py]. rewrite Px, Py. ring.
Qed.

Lemma smooth_progression_shifted_line_witness :
  exists xs ys,
    smooth (progression 1 1 2) = Ok (xs, ys) /\
    forall i, (i < 4 * 2 - 1)%nat -> nth i ys 0 = 1 + 1 * (nth i xs 0 - Num.half).
Proof.
  apply (@smooth_progression_shifted_line 1 1 2). lia.
Defined.

(** C8 as stated fails: the smoothed points of the progression 1, 2 do not
    satisfy the input's law [price = 1 + 1 * time]; the first of them is
    (9/14, 8/7). *)
Lemma smooth_progression_off_input_line :
  ~ (forall (a delta : Qc) (n : nat) (xs ys : list Qc),
        (2 <= n)%nat ->
        smooth (progression a delta n) = Ok (xs, ys) ->
        forall i, (i < length ys)%nat -> nth i ys 0 = a + delta * nth i xs 0).
Proof.
  intros H.
  specialize (H 1 1 2%nat _ _ (le_n 2) eq_refl 0%nat).
  simpl in H. specialize (H ltac:(lia)).
  apply (f_equal this) in H. vm_compute in H. discriminate.
Qed.

(** ** Reasoning about the executor's methods *)

Section ExecutorFacts.

Variable W : Type.

Lemma triple_ret A (a : A) (Q : A -> State W -> Prop) (E : State W -> Prop) :
  triple (Q a) (ret a) Q E.
Proof. intros st H. exact H. Qed.

Lemma triple_bind A B (c : M W A) (k : A -> M W B)
      (P : State W -> Prop) (Q : A -> State W -> Prop)
      (R : B -> State W -> Prop) (E : State W -> Prop) :
  triple P c Q E -> (forall a, triple (Q a) (k a) R E) -> triple P (bind c k) R E.
Proof.
  intros Hc Hk st HP. unfold bind. specialize (Hc st HP).
  destruct (c st) as [[a|e] st']; [exact (Hk a st' Hc)|exact Hc].
Qed.

Lemma triple_weaken A (c : M W A) (P P' : State W -> Prop)
      (Q Q' : A -> State W -> Prop) (E E' : State W -> Prop) :
  triple P c Q E ->
  (forall st, P' st -> P st) -> (forall a st, Q a st -> Q' a st) ->
  (forall st, E st -> E' st) ->
  triple P' c Q' E'.
Proof.
  intros Hc HP HQ HE st H. specialize (Hc st (HP st H)).
  destruct (c st) as [[a|e] st']; auto.
Qed.

Lemma triple_for_each B (l : list B) (body : B -> M W unit) (I : State W -> Prop) :
  (forall b, In b l -> triple I (body b) (fun _ => I) I) ->
  triple I (for_each l body) (fun _ => I) I.
Proof.
  induction l as [|b l IH]; intros H.
  - apply triple_ret with (Q := fun _ => I).
  - cbn [for_each]. apply triple_bind with (Q := fun _ => I).
    + apply H. now left.
    + intros _. apply IH. intros b' Hb'. apply H. now right.
Qed.

Section Loop.

Variables (fee : Qc) (xs ys : list Qc) (ss : list (Strategy W)).
Variable I : State W -> Prop.

Hypothesis I_fields : forall st, I st ->
  _x_smooth (fst st) = xs /\ _y_smooth (fst st) = ys /\ _strategies (fst st) = ss.

Lemma triple_iteration (index : nat) :
  (forall s, In s ss ->
     triple I (trade fee index (Py.slice xs (index - 100) index)
                     (Py.slice ys (index - 100) index) s) (fun _ => I) I) ->
  triple I (iteration fee index)
         (fun y st => I st /\ y = Py.slice ys (index - 100) index) I.
Proof.
  intros H st HI. unfold iteration.
  destruct (I_fields HI) as (Ex & Ey & Es).
  unfold bind at 1. unfold get at 1. cbn [fst snd].
  unfold bind at 1. unfold get at 1. cbn [fst snd].
  unfold bind at 1. unfold get at 1. cbn [fst snd].
  rewrite Ex, Ey, Es.
  pose proof (triple_for_each ss _ H st HI) as T.
  unfold bind.
  destruct (for_each ss _ st) as [[[]|e] st']; [|exact T].
  split; [exact T|reflexivity].
Qed.

Lemma triple_loop (range : list nat) (y0 : option (list Qc)) :
  (forall index s, In index range -> In s ss ->
     triple I (trade fee index (Py.slice xs (index - 100) index)
                     (Py.slice ys (index - 100) index) s) (fun _ => I) I) ->
  triple I (loop fee range y0)
         (fun y st => I st /\ y = last_window ys range y0) I.
Proof.
  revert y0. induction range as [|index range IH]; intros y0 H.
  - intros st HI. split; [exact HI|reflexivity].
  - cbn [loop]. eapply triple_bind.
    + apply triple_iteration. intros s Hs. apply H; [now left|exact Hs].
    + intros y st [HI ->]. apply (IH (Some (Py.slice ys (index - 100) index))).
      * intros i s Hi Hs. apply H; [now right|exact Hs].
      * exact HI.
Qed.

End Loop.

Ltac reduce_fields :=
  cbn [fst snd _usd _token _strategies _transactions _x_smooth _y_smooth].

Ltac case_res :=
  match goal with
  | |- context [match ?r with Ok _ => _ | Err _ => _ end] =>
      destruct r; reduce_fields
  end.

(** What every execution of the inner loop body leaves alone, in any state. *)
Lemma trade_frame (fee : Qc) (index : nat) (x y : list Qc) (s : Strategy W)
      (self : StrategyExecutor W) (w : W) :
  let st' := snd (trade fee index x y s (self, w)) in
  snd st' = snd (s w (Num.ltb 0 (_token self)) x y) /\
  _strategies (fst st') = _strategies self /\
  _x_smooth (fst st') = _x_smooth self /\
  _y_smooth (fst st') = _y_smooth self /\
  exists added, _transactions (fst st') = _transactions self ++ added.
Proof.
  destruct self as [usd token strats txs sx sy].
  unfold trade, bind, get, lift, call_tick, set_usd, set_token,
    append_transaction, ret.
  reduce_fields.
  destruct (s w (Num.ltb 0 token) x y) as [[m|e] w']; reduce_fields.
  2: { repeat (split; [reflexivity|]). exists []. now rewrite app_nil_r. }
  destruct (is_motion OPEN m && Num.ltb 0 usd);
    [|destruct (is_motion CLOSE m && Num.ltb 0 token)];
    repeat case_res;
    repeat (split; [reflexivity|]);
    solve [exists []; now rewrite app_nil_r | eexists; reflexivity].
Qed.

(** The inner loop body at an index of the loop, on well-formed smoothed
    series: the execution price is the last price of the window, the recorded
    price is the one at the index itself. *)
Lemma trade_eq (fee : Qc) (index : nat) (s : Strategy W)
      (self : StrategyExecutor W) (w : W) :
  (100 <= index < length (_x_smooth self))%nat ->
  length (_y_smooth self) = length (_x_smooth self) ->
  let xs := _x_smooth self in
  let ys := _y_smooth self in
  let x := Py.slice xs (index - 100) index in
  let y := Py.slice ys (index - 100) index in
  let rw := s w (Num.ltb 0 (_token self)) x y in
  trade fee index x y s (self, w) =
    match fst rw with
    | Err e => (Err e, (self, snd rw))
    | Ok m =>
        if is_motion OPEN m && Num.ltb 0 (_usd self) then
          (Ok tt,
           (mkExecutor 0 (_usd self / nth (index - 1) ys 0 * (1 - fee))
              (_strategies self)
              (_transactions self ++ [(nth index xs 0, nth index ys 0, true)])
              xs ys, snd rw))
        else if is_motion CLOSE m && Num.ltb 0 (_token self) then
          (Ok tt,
           (mkExecutor (_token self * nth (index - 1) ys 0 * (1 - fee)) 0
              (_strategies self)
              (_transactions self ++ [(nth index xs 0, nth index ys 0, false)])
              xs ys, snd rw))
        else (Ok tt, (self, snd rw))
    end.
Proof.
  destruct self as [usd token strats txs sx sy]. reduce_fields.
  intros Hi Hl. cbv zeta.
  unfold trade, bind, get, lift, call_tick, set_usd, set_token,
    append_transaction, ret.
  reduce_fields.
  destruct (s w (Num.ltb 0 token) _ _) as [[m|e] w']; reduce_fields;
    [|reflexivity].
  destruct (is_motion OPEN m && Num.ltb 0 usd);
    [|destruct (is_motion CLOSE m && Num.ltb 0 token)];
    rewrite ?(window_last sy) by lia; reduce_fields;
    rewrite ?(index_nth 0 sx) by lia; reduce_fields;
    rewrite ?(index_nth 0 sy) by lia; reflexivity.
Qed.

Lemma liquidate_unbound (fee : Qc) (st : State W) :
  liquidate fee None st = (Err UnboundLocalError, st).
Proof. destruct st as [[usd token strats txs sx sy] w]. reflexivity. Qed.

Lemma liquidate_bound (fee : Qc) (window : list Qc) (price : Qc)
      (self : StrategyExecutor W) (w : W) :
  Py.last window = Ok price ->
  liquidate fee (Some window) (self, w) =
    (Ok (_usd self + _token self * price * (1 - fee)),
     (with_portfolio (_usd self + _token self * price * (1 - fee)) 0 self, w)).
Proof.
  intros H. destruct self as [usd token strats txs sx sy].
  unfold liquidate, bind, get, lift, set_usd, set_token, ret, with_portfolio.
  reduce_fields. rewrite H. reflexivity.
Qed.

Lemma backtest_smooth_err (fee : Qc) (closings : list Qc) (st : State W) (e : PyExc) :
  smooth closings = Err e ->
  backtest fee closings st =
    (Err e, (with_portfolio Num.hundred 0 (fst st), snd st)).
Proof.
  intros H. destruct st as [[usd token strats txs sx sy] w].
  unfold backtest, _smoothData, bind, lift, set_usd, set_token.
  reduce_fields. rewrite H. reflexivity.
Qed.

(** [backtest] after a successful smoothing: the loop, then the liquidation. *)
Lemma backtest_smooth_ok (fee : Qc) (closings xs ys : list Qc) (st : State W) :
  smooth closings = Ok (xs, ys) ->
  backtest fee closings st =
    match loop fee (py_range 100 (length xs)) None (started xs ys (fst st), snd st) with
    | (Err e, st1) => (Err e, st1)
    | (Ok y, st1) =>
        match liquidate fee y st1 with
        | (Err e, st2) => (Err e, st2)
        | (Ok usd, st2) =>
            (Ok (Num.hundred / nth 0 ys 0 * nth (length ys - 1) ys 0 * (1 - fee) ^ 2,
                 usd), st2)
        end
    end.
Proof.
  intros H. destruct (smooth_lengths _ H) as (N & Lx & Ly).
  destruct st as [[usd token strats txs sx sy] w].
  unfold backtest, _smoothData, started.
  unfold bind at 1. unfold set_usd at 1. reduce_fields.
  unfold bind at 1. unfold set_token at 1. reduce_fields.
  unfold bind at 1. unfold bind at 1. unfold lift at 1, set_smooth.
  rewrite H. reduce_fields.
  unfold bind at 1. unfold get at 1. reduce_fields.
  unfold bind at 1. unfold lift at 1. rewrite (index_nth 0 ys) by lia.
  unfold bind at 1. unfold lift at 1.
  rewrite (last_nth 0) by (intros ->; simpl in Ly; lia).
  unfold bind at 1. unfold get at 1. reduce_fields.
  unfold bind at 1.
  destruct (loop fee _ None _) as [[y|e] st1]; [|reflexivity].
  unfold bind. destruct (liquidate fee y st1) as [[u|e] st2]; reflexivity.
Qed.

(** *** What [backtest] never touches *)

Lemma tick_chain_snoc (ss : list (Strategy W)) (w w' : W) (s : Strategy W)
      (open : bool) (x y : list Qc) :
  tick_chain ss w w' -> In s ss -> tick_chain ss w (snd (s w' open x y)).
Proof.
  intros C Hs. induction C as [w|s0 w o x0 y0 w' H0 C IH].
  - eapply chain_tick; [exact Hs|apply chain_done].
  - eapply chain_tick; [exact H0|exact IH].
Qed.

Lemma frame_trade (fee : Qc) (index : nat) (x y : list Qc) (s : Strategy W)
      (st0 st : State W) :
  In s (_strategies (fst st0)) -> frame st0 st ->
  frame st0 (snd (trade fee index x y s st)).
Proof.
  intros Hs (Fs & [added Ft] & Fc). destruct st as [self w].
  destruct (trade_frame fee index x y s self w) as (Tw & Ts & _ & _ & [added' Tt]).
  cbn [fst snd] in *. repeat split.
  - congruence.
  - exists (added ++ added'). rewrite Tt, Ft. now rewrite app_assoc.
  - rewrite Tw. now apply tick_chain_snoc.
Qed.

Lemma triple_of_snd A (c : M W A) (I : State W -> Prop) :
  (forall st, I st -> I (snd (c st))) -> triple I c (fun _ => I) I.
Proof.
  intros H st HI. specialize (H st HI).
  destruct (c st) as [[a|e] st']; exact H.
Qed.

Lemma liquidate_frame (fee : Qc) (y : option (list Qc)) (st : State W) :
  let st' := snd (liquidate fee y st) in
  snd st' = snd st /\
  _strategies (fst st') = _strategies (fst st) /\
  _transactions (fst st') = _transactions (fst st) /\
  _x_smooth (fst st') = _x_smooth (fst st) /\
  _y_smooth (fst st') = _y_smooth (fst st).
Proof.
  destruct st as [self w]. destruct y as [window|].
  - destruct (Py.last window) as [price|e] eqn:E.
    + rewrite liquidate_bound with (price := price) by exact E. cbn. auto.
    + destruct self as [usd token strats txs sx sy].
      unfold liquidate, bind, get, lift. reduce_fields. rewrite E. cbn. auto.
  - rewrite liquidate_unbound. cbn. auto.
Qed.

Lemma frame_refl (st : State W) : frame st st.
Proof.
  repeat split; [exists []; now rewrite app_nil_r|apply chain_done].
Qed.

(** Whatever its outcome, [backtest] leaves the list of registered
    strategies as it was, only appends to the ledger, and changes the store
    of strategy objects through calls of [tick] only. *)
Lemma backtest_frame (fee : Qc) (closings : list Qc) (st0 : State W) :
  frame st0 (snd (backtest fee closings st0)).
Proof.
  destruct (smooth closings) as [[xs ys]|e] eqn:ES.
  2: { rewrite backtest_smooth_err with (e := e) by exact ES.
       destruct st0 as [self w]. apply (frame_refl (self, w)). }
  rewrite backtest_smooth_ok with (xs := xs) (ys := ys) by exact ES.
  set (I := fun st : State W =>
              frame st0 st /\ _x_smooth (fst st) = xs /\ _y_smooth (fst st) = ys).
  assert (T : triple I (loop fee (py_range 100 (length xs)) None)
                     (fun y st => I st /\ y = last_window ys (py_range 100 (length xs)) None) I).
  { apply triple_loop with (xs := xs) (ss := _strategies (fst st0)).
    - intros st (F & Ex & Ey). repeat split; try assumption. apply F.
    - intros index s _ Hs. apply triple_of_snd.
      intros [self w] (F & Ex & Ey). split; [now apply frame_trade|].
      destruct (trade_frame fee index (Py.slice xs (index - 100) index)
                  (Py.slice ys (index - 100) index) s self w)
        as (_ & _ & Tx & Ty & _).
      cbn [fst snd] in *. split; congruence. }
  assert (I0 : I (started xs ys (fst st0), snd st0)).
  { destruct st0 as [self w]. split; [|split; reflexivity].
    repeat split; [exists []; now rewrite app_nil_r|apply chain_done]. }
  specialize (T _ I0).
  destruct (loop fee _ None _) as [[y|e] st1]; cbn [snd].
  2: { apply T. }
  destruct T as [(F & _ & _) _].
  pose proof (liquidate_frame fee y st1) as L. cbv zeta in L.
  destruct (liquidate fee y st1) as [[u|e] st2]; cbn [snd] in *;
    destruct L as (Lw & Ls & Lt & _ & _); destruct F as (Fs & Ft & Fc);
    (split; [congruence|split; [rewrite Lt; exact Ft|rewrite Lw; exact Fc]]).
Qed.

(** *** Observable states *)

Lemma observable_fields (fee : Qc) (closings : list Qc) (st0 st : State W) :
  observable fee closings st0 st ->
  exists xs ys,
    smooth closings = Ok (xs, ys) /\
    _x_smooth (fst st) = xs /\ _y_smooth (fst st) = ys /\
    _strategies (fst st) = _strategies (fst st0).
Proof.
  induction 1 as [xs ys E|[self w] index s O (xs & ys & E & Ex & Ey & Es) Hi Hs].
  - exists xs, ys. auto.
  - exists xs, ys. split; [exact E|].
    match goal with |- context [trade ?f ?i ?x ?y ?s0 _] =>
      destruct (trade_frame f i x y s0 self w) as (_ & Ts & Tx & Ty & _) end.
    cbn [fst snd] in *. repeat split; congruence.
Qed.

(** The loop of [backtest] only passes through observable states. *)
Lemma loop_observable (fee : Qc) (closings xs ys : list Qc) (st0 : State W) :
  smooth closings = Ok (xs, ys) ->
  triple (observable fee closings st0)
         (loop fee (py_range 100 (length xs)) None)
         (fun y st => observable fee closings st0 st /\
                      y = last_window ys (py_range 100 (length xs)) None)
         (observable fee closings st0).
Proof.
  intros E.
  apply triple_loop with (xs := xs) (ss := _strategies (fst st0)).
  - intros st O. destruct (observable_fields O) as (xs' & ys' & E' & F).
    rewrite E in E'. injection E' as <- <-. exact F.
  - intros index s Hi Hs. apply triple_of_snd. intros st O.
    destruct (observable_fields O) as (xs' & ys' & E' & Ex & Ey & Es).
    rewrite E in E'. injection E' as <- <-.
    rewrite <- Ex at 1. rewrite <- Ey at 1.
    apply obs_trade; [exact O|now rewrite Ex|now rewrite Es].
Qed.

Lemma in_py_range (index a b : nat) :
  In index (py_range a b) <-> (a <= index < b)%nat.
Proof. unfold py_range. rewrite in_seq. lia. Qed.

Lemma last_window_range (ys : list Qc) (len : nat) :
  (100 < len)%nat ->
  last_window ys (py_range 100 len) None =
  Some (Py.slice ys (len - 1 - 100) (len - 1)).
Proof.
  intros H. unfold py_range, last_window.
  replace (len - 100)%nat with (S (len - 101)) by lia.
  rewrite seq_S, fold_left_app. cbn [fold_left].
  f_equal. f_equal; lia.
Qed.

Lemma last_window_empty (ys : list Qc) (len : nat) :
  (len <= 100)%nat -> last_window ys (py_range 100 len) None = None.
Proof.
  intros H. unfold py_range.
  replace (len - 100)%nat with 0%nat by lia. reflexivity.
Qed.

Lemma liquidate_err (fee : Qc) (y : option (list Qc)) (st st' : State W) (e : PyExc) :
  liquidate fee y st = (Err e, st') -> st' = st.
Proof.
  destruct st as [self w]. destruct y as [window|].
  - destruct (Py.last window) as [price|e'] eqn:E.
    + rewrite liquidate_bound with (price := price) by exact E. discriminate.
    + destruct self as [usd token strats txs sx sy].
      unfold liquidate, bind, get, lift. reduce_fields. rewrite E.
      intros H. now injection H as _ <-.
  - rewrite liquidate_unbound. intros H. now injection H as _ <-.
Qed.

(** In an observable state the well-formedness that [trade_eq] asks for holds
    at every index of the loop. *)
Lemma observable_wf (fee : Qc) (closings : list Qc) (st0 st : State W) (index : nat) :
  observable fee closings st0 st ->
  In index (py_range 100 (length (_x_smooth (fst st)))) ->
  (100 <= index < length (_x_smooth (fst st)))%nat /\
  length (_y_smooth (fst st)) = length (_x_smooth (fst st)).
Proof.
  intros O Hi. apply in_py_range in Hi. split; [exact Hi|].
  destruct (observable_fields O) as (xs & ys & E & Ex & Ey & _).
  destruct (smooth_lengths _ E) as (_ & Lx & Ly). congruence.
Qed.

(** Either no transaction was recorded yet and the portfolio is the reset
    one, or at least one was appended to the ledger the call started with. *)
Lemma observable_ledger (fee : Qc) (closings : list Qc) (st0 st : State W) :
  observable fee closings st0 st ->
  (_transactions (fst st) = _transactions (fst st0) /\
   _usd (fst st) = Num.hundred /\ _token (fst st) = 0) \/
  (exists t added, _transactions (fst st) = _transactions (fst st0) ++ t :: added).
Proof.
  induction 1 as [xs ys E|[self w] index s O IH Hi Hs].
  - left. cbn. auto.
  - destruct (observable_wf _ O Hi) as [Wi Wl]. cbn [fst snd] in *.
    rewrite (trade_eq fee s self w Wi Wl). cbv zeta.
    destruct (fst (s w _ _ _)) as [m|e]; cbn [fst snd]; [|exact IH].
    destruct (is_motion OPEN m && _);
      [|destruct (is_motion CLOSE m && _)]; cbn [fst snd _transactions];
      try exact IH;
      right; destruct IH as [(-> & _)|(t & added & ->)];
      solve [eexists; exists []; reflexivity
            |eexists; eexists; rewrite <- app_assoc; reflexivity].
Qed.

Lemma nonzero_mult (a b : Qc) : a <> 0 -> b <> 0 -> a * b <> 0.
Proof. intros Ha Hb E. destruct (Qcmult_integral _ _ E); contradiction. Qed.

Lemma nonzero_div (a b : Qc) : a <> 0 -> b <> 0 -> a / b <> 0.
Proof.
  intros Ha Hb. unfold Qcdiv. apply nonzero_mult; [exact Ha|].
  intros E. apply Q_apart_0_1. rewrite <- (Qcmult_inv_r b Hb), E. ring.
Qed.

Lemma one_minus_nonzero (fee : Qc) : fee <> 1 -> 1 - fee <> 0.
Proof. intros H E. apply H. rewrite <- (Qcplus_0_l fee), <- E. ring. Qed.

Lemma nth_nonzero (ys : list Qc) (i : nat) :
  Forall (fun p => p <> 0) ys -> (i < length ys)%nat -> nth i ys 0 <> 0.
Proof.
  intros F H. rewrite Forall_forall in F. apply F. now apply nth_In.
Qed.


End ExecutorFacts.

(** ** The first tick of a run *)

Section FirstTick.

Variable W : Type.
Variables (fee : Qc) (xs ys : list Qc).

Lemma kept_fields (stB st : State W) :
  kept xs ys stB st ->
  _x_smooth (fst st) = xs /\ _y_smooth (fst st) = ys /\
  _strategies (fst st) = _strategies (fst stB).
Proof. intros (F & Ex & Ey). repeat split; try assumption. apply F. Qed.

Lemma kept_trade (stB : State W) (index : nat) (x y : list Qc) (s : Strategy W) :
  In s (_strategies (fst stB)) ->
  triple (kept xs ys stB) (trade fee index x y s) (fun _ => kept xs ys stB) (kept xs ys stB).
Proof.
  intros Hs. apply triple_of_snd. intros [self w] (F & Ex & Ey).
  split; [now apply frame_trade|].
  destruct (trade_frame fee index x y s self w) as (_ & _ & Tx & Ty & _).
  cbn [fst snd] in *. split; congruence.
Qed.

Lemma kept_liquidate (stB st : State W) (y : option (list Qc)) :
  kept xs ys stB st -> frame stB (snd (liquidate fee y st)).
Proof.
  intros ((Fs & Ft & Fc) & _).
  destruct (liquidate_frame fee y st) as (Lw & Ls & Lt & _ & _).
  split; [congruence|split; [rewrite Lt; exact Ft|rewrite Lw; exact Fc]].
Qed.

(** From a state with the reset portfolio, a run over more than 100 smoothed
    points with a first registered strategy [s] calls [s] first, not holding,
    on the first window and on the store of that state; the store the run
    ends with is reached from the store this call leaves. *)
Lemma first_tick (s : Strategy W) (rest : list (Strategy W))
      (closings : list Qc) (st : State W) :
  smooth closings = Ok (xs, ys) -> (100 < length xs)%nat ->
  _strategies (fst st) = s :: rest ->
  tick_chain (s :: rest)
    (snd (s (snd st) false (Py.slice xs 0 100) (Py.slice ys 0 100)))
    (snd (snd (backtest fee closings st))).
Proof.
  intros E Long Es.
  rewrite backtest_smooth_ok with (xs := xs) (ys := ys) by exact E.
  destruct st as [self w]. cbn [fst snd] in *.
  set (stA := (started xs ys self, w)).
  set (x := Py.slice xs 0 100). set (y := Py.slice ys 0 100).
  destruct (trade fee 100 x y s stA) as [r1 stB] eqn:ET.
  assert (EB : snd stB = snd (s w false x y) /\
               _strategies (fst stB) = s :: rest /\
               _x_smooth (fst stB) = xs /\ _y_smooth (fst stB) = ys).
  { destruct (trade_frame fee 100 x y s (started xs ys self) w)
      as (Tw & Ts & Tx & Ty & _).
    fold stA in Tw, Ts, Tx, Ty. rewrite ET in Tw, Ts, Tx, Ty.
    cbn [fst snd started _token _strategies _x_smooth _y_smooth] in *.
    rewrite ltb_irrefl in Tw. rewrite Es in Ts. auto. }
  destruct EB as (Bw & Bs & Bx & By). rewrite <- Bw, <- Bs.
  assert (K : kept xs ys stB stB) by (split; [apply frame_refl|auto]).
  enough (F : frame stB
                (snd (let (r, st1) := loop fee (py_range 100 (length xs)) None stA in
                      match r with
                      | Ok y0 =>
                          let (r0, st2) := liquidate fee y0 st1 in
                          match r0 with
                          | Ok usd =>
                              (Ok (Num.hundred / nth 0 ys 0
                                   * nth (length ys - 1) ys 0 * (1 - fee) ^ 2, usd),
                               st2)
                          | Err e => (Err e, st2)
                          end
                      | Err e => (Err e, st1)
                      end))) by apply F.
  unfold py_range. replace (length xs - 100)%nat with (S (length xs - 101)) by lia.
  cbn [seq loop]. unfold bind at 1. unfold iteration.
  unfold bind at 1. unfold get at 1.
  unfold bind at 1. unfold get at 1.
  unfold bind at 1. unfold get at 1.
  unfold stA at 1 2 3. cbn [fst started _x_smooth _y_smooth _strategies].
  rewrite Es. cbn [for_each Nat.sub]. fold x y. fold stA.
  change (Py.slice (_y_smooth (fst stA)) 0 100) with y.
  unfold bind at 1. unfold bind at 1. rewrite ET.
  destruct r1 as [[]|e1]; [|apply K].
  pose proof (@triple_for_each W _ rest (trade fee 100 x y) (kept xs ys stB)) as TF.
  specialize (TF (fun s' Hs' => @kept_trade stB 100 x y s'
                     ltac:(rewrite Bs; now right)) stB K).
  destruct (for_each rest _ stB) as [[[]|e2] stC]; [|apply TF].
  unfold ret at 1.
  pose proof (@triple_loop W fee xs ys (_strategies (fst stB)) (kept xs ys stB)
                (@kept_fields stB) (seq 101 (length xs - 101)) (Some y)
                (fun index s' _ Hs' => @kept_trade stB index _ _ s' Hs') stC TF) as TL.
  destruct (loop fee _ (Some y) stC) as [[y1|e3] stD]; [|apply TL].
  destruct TL as [KD _].
  pose proof (@kept_liquidate stB stD y1 KD) as L.
  destruct (liquidate fee y1 stD) as [[u|e4] stE]; exact L.
Qed.

End FirstTick.

Lemma Ok_inj (A : Type) (a b : A) : Ok a = Ok b -> a = b.
Proof. intros H. now injection H. Qed.

Lemma scenarioA_smooth : smooth scenarioA_closings = Ok scenarioA_smoothed.
Proof. vm_compute. reflexivity. Qed.

(** ** The back-test: ledger, portfolio and strategy state across calls *)

(** C5. Across two successive [backtest] calls on one executor the ledger is
    never cleared: after the second call it is the ledger left by the first
    followed by the transactions of the second, so its length does not
    decrease.  The portfolio is reset at the start of every call: the second
    call does not depend on the [usd] and [token] the first one left, it
    behaves as from [usd = 100], [token = 0], and these are the values in the
    executor when its smoothing step raises. *)
Theorem ledger_accumulates_portfolio_resets
        (W : Type) (fee1 fee2 : Qc) (closings1 closings2 : list Qc) (st : State W) :
  let st1 := snd (backtest fee1 closings1 st) in
  let st2 := snd (backtest fee2 closings2 st1) in
  (exists added,
      _transactions (fst st2) = _transactions (fst st1) ++ added) /\
  (length (_transactions (fst st1)) <= length (_transactions (fst st2)))%nat /\
  (forall usd token,
      backtest fee2 closings2 (with_portfolio usd token (fst st1), snd st1) =
      backtest fee2 closings2 (with_portfolio Num.hundred 0 (fst st1), snd st1)) /\
  backtest fee2 closings2 st1 =
    backtest fee2 closings2 (with_portfolio Num.hundred 0 (fst st1), snd st1) /\
  (forall e, smooth closings2 = Err e ->
      _usd (fst st2) = Num.hundred /\ _token (fst st2) = 0).
Proof.
  intros st1 st2.
  assert (R : forall usd token (self : StrategyExecutor W) (w : W),
             backtest fee2 closings2 (with_portfolio usd token self, w) =
             backtest fee2 closings2 (self, w)).
  { intros usd token self w.
    destruct (smooth closings2) as [[xs ys]|e] eqn:E.
    - now rewrite !backtest_smooth_ok with (xs := xs) (ys := ys) by exact E.
    - now rewrite !backtest_smooth_err with (e := e) by exact E. }
  destruct (backtest_frame fee2 closings2 st1) as (_ & [added Ft] & _).
  fold st2 in Ft.
  split; [exists added; exact Ft|].
  split; [rewrite Ft, length_app; lia|].
  split; [intros usd token; now rewrite !R|].
  split; [destruct st1 as [self1 w1]; now rewrite R|].
  intros e E. unfold st2.
  now rewrite backtest_smooth_err with (e := e) by exact E.
Qed.

(** C10. [backtest] never resets or otherwise writes the state of the
    registered strategies: over two successive calls the list of registered
    strategies stays the same, and the store of strategy objects each call
    ends with is reached from the store it started with by calls of [tick] on
    registered strategies only.  When the second call runs its loop, its
    first tick is the one of the first registered strategy, made on the very
    store the first call left: for a registered [LinRegStrategy], whose store
    holds [_sellBar], the value at the end of one call is the one in effect at
    the first tick of the next. *)
Theorem backtest_keeps_strategy_state
        (W : Type) (fee1 fee2 : Qc) (closings1 closings2 : list Qc) (st : State W) :
  let st1 := snd (backtest fee1 closings1 st) in
  let st2 := snd (backtest fee2 closings2 st1) in
  _strategies (fst st1) = _strategies (fst st) /\
  _strategies (fst st2) = _strategies (fst st) /\
  tick_chain (_strategies (fst st)) (snd st) (snd st1) /\
  tick_chain (_strategies (fst st)) (snd st1) (snd st2) /\
  (forall s rest xs ys,
     _strategies (fst st) = s :: rest ->
     smooth closings2 = Ok (xs, ys) -> (100 < length xs)%nat ->
     tick_chain (s :: rest)
       (snd (s (snd st1) false (Py.slice xs 0 100) (Py.slice ys 0 100)))
       (snd st2)).
Proof.
  intros st1 st2.
  destruct (backtest_frame fee1 closings1 st) as (S1 & _ & C1).
  destruct (backtest_frame fee2 closings2 st1) as (S2 & _ & C2).
  fold st1 in S1, C1. fold st2 in S2, C2.
  rewrite S1 in S2, C2. repeat (split; [assumption|]).
  intros s rest xs ys Es E Long.
  apply first_tick; [exact E|exact Long|congruence].
Qed.

Lemma backtest_keeps_strategy_state_witness :
  let st1 := snd (backtest 0 scenarioA_closings scenarioB_start) in
  let st2 := snd (backtest 0 scenarioA_closings st1) in
  tick_chain [stub_tick]
    (snd (stub_tick (snd st1) false
            (Py.slice (fst scenarioA_smoothed) 0 100)
            (Py.slice (snd scenarioA_smoothed) 0 100)))
    (snd st2).
Proof.
  intros st1 st2.
  apply (proj2 (proj2 (proj2 (proj2
           (@backtest_keeps_strategy_state bool 0 0 scenarioA_closings
              scenarioA_closings scenarioB_start))))).
  - reflexivity.
  - rewrite scenarioA_smooth. now destruct scenarioA_smoothed.
  - apply Nat.ltb_lt. vm_compute. reflexivity.
Defined.

(** C3 (as the code has it). A [backtest] call that raises does not restore
    the state it started from.  The ledger holds its pre-call entries followed
    by the transactions recorded before the exception; when none was recorded,
    the portfolio is the reset one, [usd = 100] and [token = 0], whatever it
    was before the call.  The list of registered strategies is unchanged. *)
Theorem failed_backtest_state
        (W : Type) (fee : Qc) (closings : list Qc) (st st' : State W) (e : PyExc) :
  backtest fee closings st = (Err e, st') ->
  _strategies (fst st') = _strategies (fst st) /\
  exists added,
    _transactions (fst st') = _transactions (fst st) ++ added /\
    (added = [] -> _usd (fst st') = Num.hundred /\ _token (fst st') = 0).
Proof.
  intros H.
  pose proof (backtest_frame fee closings st) as (Fs & _ & _).
  rewrite H in Fs. cbn [snd] in Fs. split; [exact Fs|].
  destruct (smooth closings) as [[xs ys]|e'] eqn:E.
  2: { rewrite backtest_smooth_err with (e := e') in H by exact E.
       injection H as _ <-. exists []. cbn. rewrite app_nil_r. auto. }
  rewrite backtest_smooth_ok with (xs := xs) (ys := ys) in H by exact E.
  pose proof (@loop_observable W fee closings xs ys st E _
                (@obs_start W fee closings st xs ys E)) as T.
  assert (O : observable fee closings st st').
  { destruct (loop fee _ None _) as [[y|e1] st1].
    - destruct T as [O _].
      destruct (liquidate fee y st1) as [[u|e2] st2] eqn:L; [discriminate|].
      injection H as _ <-. apply liquidate_err in L. now subst st2.
    - injection H as _ <-. exact T. }
  destruct (observable_ledger O) as [(Et & Eu & Ek)|(t & added & Et)].
  - exists []. rewrite app_nil_r. auto.
  - exists (t :: added). split; [exact Et|discriminate].
Qed.

Lemma failed_backtest_state_witness :
  _strategies (fst (snd (backtest 0 [] (@init unit, tt)))) = [] /\
  exists added,
    _transactions (fst (snd (backtest 0 [] (@init unit, tt)))) = [] ++ added /\
    (added = [] ->
     _usd (fst (snd (backtest 0 [] (@init unit, tt)))) = Num.hundred /\
     _token (fst (snd (backtest 0 [] (@init unit, tt)))) = 0).
Proof.
  apply (@failed_backtest_state unit 0 [] (init, tt) _ ValueError).
  reflexivity.
Defined.

(** C3 as stated fails.  On a fresh executor, whose [usd] is 0, [backtest]
    of an empty series raises and leaves [usd] at 100.  With a strategy that
    opens at its first tick and raises at its second, [backtest] of Scenario
    A's closings raises and leaves one more transaction in the ledger, no
    cash and a position. *)
Lemma failed_backtest_mutates_state :
  (exists e st',
     backtest 0 [] (@init unit, tt) = (Err e, st') /\
     _usd (fst st') <> _usd (@init unit)) /\
  (exists e st',
     backtest 0 scenarioA_closings (addStrategy raising_tick init, false)
       = (Err e, st') /\
     length (_transactions (fst st')) = 1%nat /\
     _usd (fst st') = 0 /\ _token (fst st') <> 0).
Proof.
  split.
  - exists ValueError. eexists. split; [reflexivity|]. cbn. discriminate.
  - destruct (backtest 0 scenarioA_closings (addStrategy raising_tick init, false))
      as [[r|e] st'] eqn:E.
    + exfalso.
      assert (X : is_ok (fst (Ok r, st')) = false)
        by (rewrite <- E; vm_compute; reflexivity).
      discriminate.
    + exists e, st'. split; [reflexivity|]. repeat split.
      * change (length (_transactions (fst (snd (Err (A := Qc * Qc) e, st')))) = 1%nat).
        rewrite <- E. vm_compute. reflexivity.
      * apply eqb_eq.
        change (Num.eqb (_usd (fst (snd (Err (A := Qc * Qc) e, st')))) 0 = true).
        rewrite <- E. vm_compute. reflexivity.
      * apply eqb_neq.
        change (Num.eqb (_token (fst (snd (Err (A := Qc * Qc) e, st')))) 0 = false).
        rewrite <- E. vm_compute. reflexivity.
Qed.

(** ** Portfolio exclusivity *)

Lemma positive_forallb (cl : list Qc) :
  forallb (Num.ltb 0) cl = true -> Forall (fun p => 0 < p) cl.
Proof.
  rewrite forallb_forall, Forall_forall. intros H p Hp. now apply ltb_lt, H.
Qed.

(** A call whose smoothing succeeds either raises in an observable state, or
    runs its loop over more than 100 points to an observable state and
    liquidates there. *)
Lemma backtest_run (W : Type) (fee : Qc) (closings xs ys : list Qc) (st : State W) :
  smooth closings = Ok (xs, ys) ->
  exists st1,
    observable fee closings st st1 /\
    ((exists e, backtest fee closings st = (Err e, st1)) \/
     ((100 < length xs)%nat /\
      backtest fee closings st =
        (Ok (Num.hundred / nth 0 ys 0 * nth (length ys - 1) ys 0 * (1 - fee) ^ 2,
             _usd (fst st1) + _token (fst st1) * nth (length ys - 2) ys 0 * (1 - fee)),
         (with_portfolio
            (_usd (fst st1) + _token (fst st1) * nth (length ys - 2) ys 0 * (1 - fee))
            0 (fst st1), snd st1)))).
Proof.
  intros E.
  rewrite backtest_smooth_ok with (xs := xs) (ys := ys) by exact E.
  pose proof (@loop_observable W fee closings xs ys st E _
                (@obs_start W fee closings st xs ys E)) as T.
  destruct (loop fee _ None _) as [[y|e] [self1 w1]].
  2: { exists (self1, w1). split; [exact T|]. left. now exists e. }
  destruct T as [O ->]. exists (self1, w1). split; [exact O|].
  destruct (smooth_lengths _ E) as (_ & Lx & Ly).
  destruct (Nat.le_gt_cases (length xs) 100) as [Short|Long].
  - left. exists UnboundLocalError.
    now rewrite last_window_empty, liquidate_unbound by exact Short.
  - right. split; [exact Long|].
    rewrite last_window_range by exact Long.
    assert (P : Py.last (Py.slice ys (length xs - 1 - 100) (length xs - 1))
                = Ok (nth (length ys - 2) ys 0)).
    { rewrite window_last by lia. do 2 f_equal. lia. }
    now rewrite liquidate_bound with (price := nth (length ys - 2) ys 0) by exact P.
Qed.

Lemma alternates_snoc (e : bool) (l : list Transaction) (t : Transaction) :
  alternates e l = true ->
  snd t = (if open_next l then e else negb e) ->
  alternates e (l ++ [t]) = true /\ open_next (l ++ [t]) = negb (open_next l).
Proof.
  revert e. induction l as [|a l IH]; intros e A H.
  - cbn in *. rewrite H, eqb_reflx. auto.
  - cbn [alternates app open_next] in *.
    apply andb_prop in A as [Aa Al].
    destruct (IH (negb e) Al) as [I1 I2].
    + rewrite H. destruct (open_next l), e; reflexivity.
    + rewrite Aa, I1, I2. auto.
Qed.

Ltac rewrite_next A :=
  match goal with
  | |- context [open_next (?l ++ ?t)] =>
      replace (open_next (l ++ t)) with (negb (open_next l))
        by (symmetry; exact A)
  end.

(** What the entries added since the start of a run look like, and how they
    relate to the portfolio. *)
Lemma observable_added (W : Type) (fee : Qc) (closings : list Qc) (st0 st : State W) :
  observable fee closings st0 st ->
  exists added,
    _transactions (fst st) = _transactions (fst st0) ++ added /\
    alternates true added = true /\
    (open_next added = true -> _token (fst st) = 0) /\
    (open_next added = false -> _usd (fst st) = 0) /\
    Forall (recorded_at (_x_smooth (fst st)) (_y_smooth (fst st))) added.
Proof.
  induction 1 as [xs ys E|[self w] index s O IH Hi Hs].
  - exists []. cbn. rewrite app_nil_r. repeat split; auto; discriminate.
  - destruct IH as (added & Et & Alt & Flat & Held & Rec).
    destruct (observable_wf _ O Hi) as [Wi Wl]. cbn [fst snd] in *.
    rewrite (trade_eq fee s self w Wi Wl). cbv zeta.
    destruct (fst (s w _ _ _)) as [m|e]; cbn [fst snd];
      [|exists added; auto].
    destruct (is_motion OPEN m && _) eqn:C1;
      [|destruct (is_motion CLOSE m && _) eqn:C2]; cbn [fst snd];
      [| |exists added; auto].
    + apply andb_prop in C1 as [_ C1]. apply ltb_0_neq in C1.
      assert (N : open_next added = true).
      { destruct (open_next added); [reflexivity|]. now elim C1; apply Held. }
      destruct (@alternates_snoc true added
                  (nth index (_x_smooth self) 0, nth index (_y_smooth self) 0, true)
                  Alt) as [A1 A2]; [now rewrite N|].
      exists (added ++ [(nth index (_x_smooth self) 0,
                         nth index (_y_smooth self) 0, true)]).
      cbn [_transactions _usd _token _x_smooth _y_smooth].
      split; [rewrite Et, <- app_assoc; reflexivity|].
      split; [exact A1|]. rewrite_next A2. rewrite N.
      split; [discriminate|]. split; [reflexivity|].
      apply Forall_app. split; [exact Rec|].
      constructor; [|constructor]. exists index. cbn. auto.
    + apply andb_prop in C2 as [_ C2]. apply ltb_0_neq in C2.
      assert (N : open_next added = false).
      { destruct (open_next added); [|reflexivity]. now elim C2; apply Flat. }
      destruct (@alternates_snoc true added
                  (nth index (_x_smooth self) 0, nth index (_y_smooth self) 0, false)
                  Alt) as [A1 A2]; [now rewrite N|].
      exists (added ++ [(nth index (_x_smooth self) 0,
                         nth index (_y_smooth self) 0, false)]).
      cbn [_transactions _usd _token _x_smooth _y_smooth].
      split; [rewrite Et, <- app_assoc; reflexivity|].
      split; [exact A1|]. rewrite_next A2. rewrite N.
      split; [reflexivity|]. split; [discriminate|].
      apply Forall_app. split; [exact Rec|].
      constructor; [|constructor]. exists index. cbn. auto.
Qed.

Lemma alternates_last (e : bool) (l : list Transaction) (t : Transaction) :
  alternates e (l ++ [t]) = true ->
  snd t = (if open_next l then e else negb e) /\
  open_next (l ++ [t]) = negb (open_next l).
Proof.
  revert e. induction l as [|a l IH]; intros e A.
  - cbn in *. rewrite andb_true_r in A. apply eqb_prop in A. auto.
  - cbn [alternates app open_next] in *.
    apply andb_prop in A as [_ Al]. destruct (IH (negb e) Al) as [I1 I2].
    split; [|now rewrite I2].
    rewrite I1. destruct (open_next l), e; reflexivity.
Qed.

(** C4 (as the code has it). In every [backtest] run at least one of
    [usd], [token] is zero in each state observable between trades, the one
    the loop ends in included, so at most one of them is strictly positive:
    [token] is zero before the first transaction of the run, [usd] is zero
    after each recorded opening transaction and [token] is zero after each
    recorded closing one.  When the run returns, after the forced
    liquidation, [token] is zero and the final equity returned is [usd].
    That the other one of the two is nonzero is not part of the statement. *)
Theorem portfolio_one_side_empty
        (W : Type) (fee : Qc) (closings : list Qc) (st0 : State W) :
  (forall st, observable fee closings st0 st ->
     (_usd (fst st) = 0 \/ _token (fst st) = 0) /\
     ~ (0 < _usd (fst st) /\ 0 < _token (fst st)) /\
     exists added,
       _transactions (fst st) = _transactions (fst st0) ++ added /\
       (added = [] -> _token (fst st) = 0) /\
       (forall before t, added = before ++ [t] ->
          if snd t then _usd (fst st) = 0 else _token (fst st) = 0)) /\
  (forall xs ys, smooth closings = Ok (xs, ys) ->
     observable fee closings st0
       (snd (loop fee (py_range 100 (length xs)) None
               (started xs ys (fst st0), snd st0)))) /\
  (forall baseline final st',
     backtest fee closings st0 = (Ok (baseline, final), st') ->
     final = _usd (fst st') /\ _token (fst st') = 0).
Proof.
  split; [|split].
  - intros st O.
    destruct (observable_added O) as (added & Et & Alt & Flat & Held & _).
    assert (Z : _usd (fst st) = 0 \/ _token (fst st) = 0).
    { destruct (open_next added); [right|left]; auto. }
    split; [exact Z|]. split.
    + intros [Hu Ht]. apply ltb_lt in Hu, Ht.
      destruct Z as [Z|Z]; rewrite Z, ltb_irrefl in *; discriminate.
    + exists added. split; [exact Et|]. split.
      * intros ->. now apply Flat.
      * intros before t ->. destruct (@alternates_last _ _ _ Alt) as [L N].
        rewrite L. destruct (open_next before); [apply Held|apply Flat];
          now rewrite N.
  - intros xs ys E.
    pose proof (@loop_observable W fee closings xs ys st0 E _
                  (@obs_start W fee closings st0 xs ys E)) as T.
    destruct (loop fee _ None _) as [[y|e] st1]; [apply T|exact T].
  - intros baseline final st' H.
    destruct (smooth closings) as [[xs ys]|e] eqn:E.
    2: { rewrite backtest_smooth_err with (e := e) in H by exact E. discriminate. }
    destruct (@backtest_run W fee closings xs ys st0 E) as (st1 & _ & [[e R]|[_ R]]);
      rewrite R in H; [discriminate|].
    injection H as _ <- <-. cbn. auto.
Qed.

(** C4 as stated fails in the program's own arithmetic, where a positive
    amount can be rounded to the double 0.  On a flat series of 200 closings
    at the price 1, all of whose smoothed prices are 1, with the fee 0.5 and a
    strategy that always opens registered before one that always closes, the
    cash is halved at every trade; after 1082 recorded transactions it is the
    double 0, and the run returns with [usd] and [token] both zero.  On the
    positive closings [cancelling_closings] the smoothed price at index 101
    is the double 0: at the fee 0 the stub strategy opens once, the forced
    liquidation sells at that price, and the run returns with [usd] and
    [token] both zero. *)
Lemma exclusivity_lost_to_rounding :
  (forallb (PrimFloat.ltb 0) F64.flat_closings = true /\
   F64.smooth F64.flat_closings
     = Ok (fst (F64_smoothed F64.flat_closings), repeat 1%float 799) /\
   fst F64.halving_run = Ok (25%float, 0%float) /\
   F64._usd (fst (snd F64.halving_run)) = 0%float /\
   F64._token (fst (snd F64.halving_run)) = 0%float /\
   length (F64._transactions (fst (snd F64.halving_run))) = 1082%nat) /\
  (forallb (PrimFloat.ltb 0) F64.cancelling_closings = true /\
   nth 101 (snd (F64_smoothed F64.cancelling_closings)) 1%float = 0%float /\
   (exists baseline, fst F64.cancelling_run = Ok (baseline, 0%float)) /\
   F64._usd (fst (snd F64.cancelling_run)) = 0%float /\
   F64._token (fst (snd F64.cancelling_run)) = 0%float /\
   length (F64._transactions (fst (snd F64.cancelling_run))) = 1%nat).
Proof.
  split.
  - repeat split; vm_compute; reflexivity.
  - repeat split; try (vm_compute; reflexivity).
    eexists. vm_compute. reflexivity.
Qed.

(** ** Scenario B *)

(** C1 (as the code has it). On Scenario A's closings with fee 0 and the stub
    strategy, [backtest] returns the baseline
    [100 / y_smooth[0] * y_smooth[198] = 199] and the final equity
    [100 / y_smooth[99] * y_smooth[197] = 39700/299]: the position is opened
    after the warm-up at the last price of the first window and liquidated at
    the last price of the last window. *)
Theorem scenarioB_final_equity :
  exists baseline final st',
    backtest 0 scenarioA_closings scenarioB_start = (Ok (baseline, final), st') /\
    baseline = Num.of_Z 199 /\
    final = Q2Qc (39700 # 299) /\
    baseline = Num.hundred / nth 0 (snd scenarioA_smoothed) 0
               * nth 198 (snd scenarioA_smoothed) 0 /\
    final = Num.hundred / nth 99 (snd scenarioA_smoothed) 0
            * nth 197 (snd scenarioA_smoothed) 0.
Proof.
  destruct (backtest 0 scenarioA_closings scenarioB_start)
    as [[[baseline final]|e] st'] eqn:E.
  - exists baseline, final, st'. split; [reflexivity|].
    repeat split; apply eqb_eq.
    + change (match fst (Ok (baseline, final), st') with
              | Ok (b, _) => Num.eqb b (Num.of_Z 199) | Err _ => false end = true).
      rewrite <- E. vm_compute. reflexivity.
    + change (match fst (Ok (baseline, final), st') with
              | Ok (_, u) => Num.eqb u (Q2Qc (39700 # 299))
              | Err _ => false end = true).
      rewrite <- E. vm_compute. reflexivity.
    + change (match fst (Ok (baseline, final), st') with
              | Ok (b, _) =>
                  Num.eqb b (Num.hundred / nth 0 (snd scenarioA_smoothed) 0
                             * nth 198 (snd scenarioA_smoothed) 0)
              | Err _ => false end = true).
      rewrite <- E. vm_compute. reflexivity.
    + change (match fst (Ok (baseline, final), st') with
              | Ok (_, u) =>
                  Num.eqb u (Num.hundred / nth 99 (snd scenarioA_smoothed) 0
                             * nth 197 (snd scenarioA_smoothed) 0)
              | Err _ => false end = true).
      rewrite <- E. vm_compute. reflexivity.
  - exfalso.
    assert (X : is_ok (fst (Err (A := Qc * Qc) e, st')) = true)
      by (rewrite <- E; vm_compute; reflexivity).
    discriminate.
Qed.

(** C1 as stated fails: in Scenario B the final equity is not the baseline,
    it is more than 66 below it. *)
Lemma scenarioB_final_equity_below_baseline :
  exists baseline final st',
    backtest 0 scenarioA_closings scenarioB_start = (Ok (baseline, final), st') /\
    final <> baseline /\ final + Num.of_Z 66 < baseline.
Proof.
  destruct (backtest 0 scenarioA_closings scenarioB_start)
    as [[[baseline final]|e] st'] eqn:E.
  - exists baseline, final, st'. split; [reflexivity|].
    assert (L : final + Num.of_Z 66 < baseline).
    { apply ltb_lt.
      change (match fst (Ok (baseline, final), st') with
              | Ok (b, u) => Num.ltb (u + Num.of_Z 66) b
              | Err _ => false end = true).
      rewrite <- E. vm_compute. reflexivity. }
    split; [|exact L].
    apply eqb_neq.
    change (match fst (Ok (baseline, final), st') with
            | Ok (b, u) => Num.eqb u b | Err _ => true end = false).
    rewrite <- E. vm_compute. reflexivity.
  - exfalso.
    assert (X : is_ok (fst (Err (A := Qc * Qc) e, st')) = true)
      by (rewrite <- E; vm_compute; reflexivity).
    discriminate.
Qed.

(** ** Recorded price and execution price *)

Lemma loop_cons (W : Type) (fee : Qc) (index : nat) (range : list nat)
      (y : option (list Qc)) (st : State W) :
  loop fee (index :: range) y st =
    match for_each (_strategies (fst st))
            (trade fee index
               (Py.slice (_x_smooth (fst st)) (index - 100) index)
               (Py.slice (_y_smooth (fst st)) (index - 100) index)) st
    with
    | (Ok _, st1) =>
        loop fee range (Some (Py.slice (_y_smooth (fst st)) (index - 100) index)) st1
    | (Err e, st1) => (Err e, st1)
    end.
Proof.
  cbn [loop]. unfold bind at 1. unfold iteration.
  unfold bind at 1. unfold get at 1.
  unfold bind at 1. unfold get at 1.
  unfold bind at 1. unfold get at 1.
  unfold bind at 1.
  destruct (for_each _ _ st) as [[[]|e] st1]; reflexivity.
Qed.

(** On well-formed smoothed series the body of the inner loop is [step_at]. *)
Lemma trade_step_at (W : Type) (fee : Qc) (xs ys : list Qc) (index : nat)
      (s : Strategy W) (st : State W) :
  _x_smooth (fst st) = xs -> _y_smooth (fst st) = ys ->
  (100 <= index < length xs)%nat -> length ys = length xs ->
  trade fee index (Py.slice xs (index - 100) index)
        (Py.slice ys (index - 100) index) s st
  = step_at fee xs ys index s st.
Proof.
  intros Ex Ey Hi Hl. destruct st as [self w]. cbn [fst snd] in *. subst xs ys.
  exact (trade_eq fee s self w Hi Hl).
Qed.

Lemma step_at_fields (W : Type) (fee : Qc) (xs ys : list Qc) (index : nat)
      (s : Strategy W) (st : State W) :
  _x_smooth (fst st) = xs -> _y_smooth (fst st) = ys ->
  let st' := snd (step_at fee xs ys index s st) in
  _x_smooth (fst st') = xs /\ _y_smooth (fst st') = ys /\
  _strategies (fst st') = _strategies (fst st).
Proof.
  intros Ex Ey. unfold step_at.
  destruct (fst (s _ _ _ _)) as [m|e]; cbn; [|auto].
  destruct (is_motion OPEN m && _);
    [|destruct (is_motion CLOSE m && _)]; cbn; auto.
Qed.

Lemma for_each_steps_at (W : Type) (fee : Qc) (xs ys : list Qc) (index : nat)
      (ss : list (Strategy W)) (st : State W) :
  _x_smooth (fst st) = xs -> _y_smooth (fst st) = ys ->
  (100 <= index < length xs)%nat -> length ys = length xs ->
  for_each ss (trade fee index (Py.slice xs (index - 100) index)
                     (Py.slice ys (index - 100) index)) st
  = steps_at fee xs ys index ss st.
Proof.
  intros Ex Ey Hi Hl. revert st Ex Ey.
  induction ss as [|s ss IH]; intros st Ex Ey; [reflexivity|].
  cbn [for_each steps_at]. unfold bind.
  rewrite trade_step_at by assumption.
  destruct (step_at_fields fee index s st Ex Ey) as (Fx & Fy & _).
  destruct (step_at fee xs ys index s st) as [[[]|e] st1]; [|reflexivity].
  now apply IH.
Qed.

Lemma steps_at_fields (W : Type) (fee : Qc) (xs ys : list Qc) (index : nat)
      (ss : list (Strategy W)) (st : State W) :
  _x_smooth (fst st) = xs -> _y_smooth (fst st) = ys ->
  let st' := snd (steps_at fee xs ys index ss st) in
  _x_smooth (fst st') = xs /\ _y_smooth (fst st') = ys /\
  _strategies (fst st') = _strategies (fst st).
Proof.
  revert st. induction ss as [|s ss IH]; intros st Ex Ey; [cbn; auto|].
  cbn [steps_at].
  destruct (step_at_fields fee index s st Ex Ey) as (Fx & Fy & Fs).
  destruct (step_at fee xs ys index s st) as [[[]|e] st1]; cbn [snd] in *.
  - destruct (IH st1 Fx Fy) as (Gx & Gy & Gs). repeat split; congruence.
  - auto.
Qed.

(** The loop of [backtest] is [run_at] over its registered strategies. *)
Lemma loop_run_at (W : Type) (fee : Qc) (xs ys : list Qc) (range : list nat)
      (y : option (list Qc)) (st : State W) :
  _x_smooth (fst st) = xs -> _y_smooth (fst st) = ys ->
  (forall index, In index range -> (100 <= index < length xs)%nat) ->
  length ys = length xs ->
  loop fee range y st =
    match run_at fee xs ys range (_strategies (fst st)) st with
    | (Ok _, st1) => (Ok (last_window ys range y), st1)
    | (Err e, st1) => (Err e, st1)
    end.
Proof.
  intros Ex Ey Hr Hl. revert y st Ex Ey.
  induction range as [|index range IH]; intros y st Ex Ey; [reflexivity|].
  rewrite loop_cons, Ex, Ey. cbn [run_at].
  rewrite for_each_steps_at by (try assumption; apply Hr; now left).
  destruct (steps_at_fields fee index (_strategies (fst st)) st Ex Ey)
    as (Fx & Fy & Fs).
  destruct (steps_at fee xs ys index _ st) as [[[]|e] st1]; cbn [snd] in *;
    [|reflexivity].
  rewrite IH by (try assumption; intros i Hi; apply Hr; now right).
  rewrite Fs. reflexivity.
Qed.

(** [backtest] after a successful smoothing, written out: the run of
    [run_at] over the indices 100, ..., L - 1 from the reset portfolio, then
    the liquidation at [ys[L - 2]]. *)
Lemma backtest_as_run (W : Type) (fee : Qc) (closings xs ys : list Qc) (st0 : State W) :
  smooth closings = Ok (xs, ys) ->
  backtest fee closings st0 =
    match run_at fee xs ys (py_range 100 (length xs)) (_strategies (fst st0))
                 (started xs ys (fst st0), snd st0) with
    | (Err e, st1) => (Err e, st1)
    | (Ok _, st1) =>
        if (length xs <=? 100)%nat then (Err UnboundLocalError, st1)
        else
          let final :=
            _usd (fst st1) + _token (fst st1) * nth (length ys - 2) ys 0 * (1 - fee) in
          (Ok (Num.hundred / nth 0 ys 0 * nth (length ys - 1) ys 0 * (1 - fee) ^ 2,
               final),
           (with_portfolio final 0 (fst st1), snd st1))
    end.
Proof.
  intros E. destruct (smooth_lengths _ E) as (_ & Lx & Ly).
  rewrite backtest_smooth_ok with (xs := xs) (ys := ys) by exact E.
  rewrite loop_run_at with (xs := xs) (ys := ys);
    [|reflexivity|reflexivity|intros i Hi; now apply in_py_range in Hi|congruence].
  cbn [fst started _strategies].
  destruct (run_at fee xs ys _ _ _) as [[[]|e] [self1 w1]]; [|reflexivity].
  destruct (Nat.leb_spec (length xs) 100) as [Short|Long].
  - now rewrite last_window_empty, liquidate_unbound by exact Short.
  - rewrite last_window_range by exact Long.
    assert (P : Py.last (Py.slice ys (length xs - 1 - 100) (length xs - 1))
                = Ok (nth (length ys - 2) ys 0)).
    { rewrite window_last by lia. do 2 f_equal. lia. }
    now rewrite liquidate_bound with (price := nth (length ys - 2) ys 0) by exact P.
Qed.

(** C9. After a successful smoothing [backtest] is the following run, for
    every registered strategy and whatever it answers: at each loop index [i]
    the strategy is ticked on the window [i-100:i]; a purchase or a sale is
    made at [y_smooth[i - 1]], the last price of that window, while the
    transaction it appends carries the time [x_smooth[i]] and the price
    [y_smooth[i]], so the recorded price and the execution price differ
    whenever these adjacent smoothed prices do.  Likewise a run that returns
    has liquidated at [y_smooth[L - 2]], while its baseline is computed with
    [y_smooth[L - 1]]. *)
Theorem recorded_price_vs_execution_price
        (W : Type) (fee : Qc) (closings xs ys : list Qc) (st0 : State W) :
  smooth closings = Ok (xs, ys) ->
  backtest fee closings st0 =
    match run_at fee xs ys (py_range 100 (length xs)) (_strategies (fst st0))
                 (started xs ys (fst st0), snd st0) with
    | (Err e, st1) => (Err e, st1)
    | (Ok _, st1) =>
        if (length xs <=? 100)%nat then (Err UnboundLocalError, st1)
        else
          let final :=
            _usd (fst st1) + _token (fst st1) * nth (length ys - 2) ys 0 * (1 - fee) in
          (Ok (Num.hundred / nth 0 ys 0 * nth (length ys - 1) ys 0 * (1 - fee) ^ 2,
               final),
           (with_portfolio final 0 (fst st1), snd st1))
    end /\
  (forall baseline final st',
     backtest fee closings st0 = (Ok (baseline, final), st') ->
     (100 < length ys)%nat /\
     baseline =
       Num.hundred / nth 0 ys 0 * nth (length ys - 1) ys 0 * (1 - fee) ^ 2 /\
     exists y st1,
       loop fee (py_range 100 (length xs)) None (started xs ys (fst st0), snd st0)
         = (Ok y, st1) /\
       final =
         _usd (fst st1) + _token (fst st1) * nth (length ys - 2) ys 0 * (1 - fee)).
Proof.
  intros E. split; [now apply backtest_as_run|].
  intros baseline final st' H.
  rewrite backtest_smooth_ok with (xs := xs) (ys := ys) in H by exact E.
  pose proof (@loop_observable W fee closings xs ys st0 E _
                (@obs_start W fee closings st0 xs ys E)) as T.
  destruct (loop fee _ None _) as [[y|e] [self1 w1]] eqn:EL; [|discriminate].
  destruct T as [_ Y].
  destruct (smooth_lengths _ E) as (_ & Lx & Ly).
  destruct (Nat.le_gt_cases (length xs) 100) as [Short|Long].
  { rewrite Y, last_window_empty, liquidate_unbound in H by exact Short.
    discriminate. }
  rewrite last_window_range in Y by exact Long.
  assert (P : Py.last (Py.slice ys (length xs - 1 - 100) (length xs - 1))
              = Ok (nth (length ys - 2) ys 0)).
  { rewrite window_last by lia. do 2 f_equal. lia. }
  rewrite Y, liquidate_bound with (price := nth (length ys - 2) ys 0) in H
    by exact P.
  injection H as <- <- _.
  split; [lia|]. split; [reflexivity|].
  exists y, (self1, w1). split; [reflexivity|reflexivity].
Qed.

Lemma recorded_price_vs_execution_price_witness :
  let xs := fst scenarioA_smoothed in
  let ys := snd scenarioA_smoothed in
  backtest 0 scenarioA_closings scenarioB_start =
    match run_at 0 xs ys (py_range 100 (length xs))
                 (_strategies (fst scenarioB_start))
                 (started xs ys (fst scenarioB_start), snd scenarioB_start) with
    | (Err e, st1) => (Err e, st1)
    | (Ok _, st1) =>
        if (length xs <=? 100)%nat then (Err UnboundLocalError, st1)
        else
          let final :=
            _usd (fst st1) + _token (fst st1) * nth (length ys - 2) ys 0 * (1 - 0) in
          (Ok (Num.hundred / nth 0 ys 0 * nth (length ys - 1) ys 0 * (1 - 0) ^ 2,
               final),
           (with_portfolio final 0 (fst st1), snd st1))
    end /\
  (forall baseline final st',
     backtest 0 scenarioA_closings scenarioB_start = (Ok (baseline, final), st') ->
     (100 < length ys)%nat /\
     baseline =
       Num.hundred / nth 0 ys 0 * nth (length ys - 1) ys 0 * (1 - 0) ^ 2 /\
     exists y st1,
       loop 0 (py_range 100 (length xs)) None
         (started xs ys (fst scenarioB_start), snd scenarioB_start) = (Ok y, st1) /\
       final =
         _usd (fst st1) + _token (fst st1) * nth (length ys - 2) ys 0 * (1 - 0)).
Proof.
  intros xs ys.
  apply (@recorded_price_vs_execution_price bool 0 scenarioA_closings xs ys
           scenarioB_start).
  rewrite scenarioA_smooth. unfold xs, ys. now destruct scenarioA_smoothed.
Defined.

(** ** Invalid inputs *)

(** C2 (as the code has it). The code validates nothing and raises none of
    the error kinds named in the specification.  A series of fewer than two
    closings makes the smoothing step, and so [backtest], fail with the
    [ValueError] of the interpolation routine.  A series of at least two
    closings is smoothed whatever its prices are, non-positive ones included.
    When its smoothed length 4N - 1 does not exceed the warm-up of 100 points,
    [backtest] fails at the liquidation, with [UnboundLocalError]. *)
Theorem invalid_input_failures
        (W : Type) (fee : Qc) (closings : list Qc) (st : State W) :
  ((length closings < 2)%nat ->
     smooth closings = Err ValueError /\
     fst (backtest fee closings st) = Err ValueError) /\
  ((2 <= length closings)%nat ->
     is_ok (smooth closings) = true /\
     ((4 * length closings - 1 <= 100)%nat ->
        fst (backtest fee closings st) = Err UnboundLocalError)).
Proof.
  split.
  - intros H. pose proof (smooth_short closings H) as E. split; [exact E|].
    now rewrite backtest_smooth_err with (e := ValueError) by exact E.
  - intros H.
    destruct (smooth_ok closings H) as (d0 & ds & c0 & di & _ & _ & _ & _ & E).
    split; [now rewrite E|].
    intros Short.
    destruct (smooth closings) as [[xs ys]|e] eqn:ES; [|discriminate].
    destruct (smooth_lengths _ ES) as (_ & Lx & _).
    rewrite backtest_smooth_ok with (xs := xs) (ys := ys) by exact ES.
    unfold py_range. replace (length xs - 100)%nat with 0%nat by lia.
    cbn [seq loop]. unfold ret. now rewrite liquidate_unbound.
Qed.

Lemma invalid_input_failures_witness :
  (smooth [Num.of_Z 7] = Err ValueError /\
   fst (backtest 0 [Num.of_Z 7] (@init unit, tt)) = Err ValueError) /\
  (is_ok (smooth [Num.of_Z 7; Num.of_Z 8]) = true /\
   fst (backtest 0 [Num.of_Z 7; Num.of_Z 8] (@init unit, tt))
     = Err UnboundLocalError).
Proof.
  split.
  - apply (proj1 (@invalid_input_failures unit 0 [Num.of_Z 7] (init, tt))).
    simpl. lia.
  - destruct (proj2 (@invalid_input_failures unit 0 [Num.of_Z 7; Num.of_Z 8]
                       (init, tt))) as [S B].
    + simpl. lia.
    + split; [exact S|apply B; simpl; lia].
Defined.

(** C2 as stated fails: a series that holds a negative and a zero price is
    smoothed, no exception is raised. *)
Lemma nonpositive_prices_are_smoothed :
  exists xs ys, smooth [Num.of_Z (-1); 0; Num.of_Z 5] = Ok (xs, ys).
Proof.
  destruct (smooth [Num.of_Z (-1); 0; Num.of_Z 5]) as [[xs ys]|e] eqn:E.
  - exists xs, ys. reflexivity.
  - exfalso.
    assert (X : is_ok (Err (A := list Qc * list Qc) e) = true)
      by (rewrite <- E; vm_compute; reflexivity).
    discriminate.
Qed.

(** ** The stop-loss of [LinRegStrategy] *)

Lemma upto_length (l : list Qc) (w : Z) :
  (0 < w < Z.of_nat (length l))%Z ->
  length (Py.upto l (- w)) = (length l - Z.to_nat w)%nat /\
  (0 < length (Py.upto l (- w)))%nat.
Proof.
  intros H. unfold Py.upto.
  destruct (Z.ltb_spec (- w) 0); [|lia].
  rewrite length_firstn. lia.
Qed.

Lemma fitLine_ok (polyfit1 : list Qc -> list Qc -> Qc * Qc) (x y : list Qc) :
  (0 < length x)%nat -> length x = length y ->
  _fitLine polyfit1 x y = Ok (snd (polyfit1 x y), fst (polyfit1 x y)).
Proof.
  intros Hx Hl. unfold _fitLine. destruct x as [|a x]; [simpl in Hx; lia|].
  rewrite Hl, Nat.eqb_refl. reflexivity.
Qed.

(** C7. A [tick] with a valid configuration (both windows strictly between
    0 and 100) on a 100-point window, called while holding and with the last
    price at or below the current [_sellBar], returns [CLOSE] and leaves the
    strategy as it is, whatever the fitted slopes and the signals are. *)
Theorem stop_loss_precedence
        (polyfit1 : list Qc -> list Qc -> Qc * Qc) (np_std : list Qc -> Qc)
        (self : LinRegStrategy) (times prices : list Qc) (price : Qc) :
  (0 < shortTermWindow (_params self) < 100)%Z ->
  (0 < longTermWindow (_params self) < 100)%Z ->
  length times = 100%nat -> length prices = 100%nat ->
  Py.last prices = Ok price ->
  price <= _sellBar self ->
  tick polyfit1 np_std self true times prices = (Ok (Some CLOSE), self).
Proof.
  intros Hs Hl Lt Lp Hprice Hstop. unfold tick.
  destruct (@upto_length times (shortTermWindow (_params self))) as [XS XS0];
    [rewrite Lt; lia|].
  destruct (@upto_length prices (shortTermWindow (_params self))) as [YS _];
    [rewrite Lp; lia|].
  destruct (@upto_length times (longTermWindow (_params self))) as [XL XL0];
    [rewrite Lt; lia|].
  destruct (@upto_length prices (longTermWindow (_params self))) as [YL _];
    [rewrite Lp; lia|].
  rewrite fitLine_ok by (try assumption; rewrite XS, YS; lia).
  rewrite fitLine_ok by (try assumption; rewrite XL, YL; lia).
  rewrite (last_nth 0 (l := times)) by (intros ->; discriminate).
  rewrite Hprice.
  apply leb_le in Hstop. rewrite Hstop. reflexivity.
Qed.

Lemma stop_loss_precedence_witness :
  tick (fun _ _ => (0, 0)) (fun _ => 0) (mkLinReg default_params Num.two) true
       (map Num.of_nat (seq 0 100)) (repeat 1 100)
  = (Ok (Some CLOSE), mkLinReg default_params Num.two).
Proof.
  apply (@stop_loss_precedence (fun _ _ => (0, 0)) (fun _ => 0)
           (mkLinReg default_params Num.two)
           (map Num.of_nat (seq 0 100)) (repeat 1 100) 1).
  - simpl. lia.
  - simpl. lia.
  - reflexivity.
  - reflexivity.
  - reflexivity.
  - apply leb_le. vm_compute. reflexivity.
Defined.

(** * Further properties of the code *)

(** ** The smoothing step: time axis and rescaling of prices *)

Lemma of_nat_S (n : nat) : Num.of_nat (S n) = Num.of_nat n + 1.
Proof.
  apply Qc_is_canon. unfold Num.of_nat, Num.of_Z, Qcplus, Q2Qc. cbn [this].
  rewrite !Qred_correct, Nat2Z.inj_succ. unfold Z.succ.
  now rewrite inject_Z_plus.
Qed.

Lemma of_nat_pos (n : nat) : (0 < n)%nat -> 0 < Num.of_nat n.
Proof.
  intros H. unfold Qclt, Num.of_nat, Num.of_Z, Q2Qc. cbn [this].
  rewrite !Qred_correct. unfold Qlt. cbn. lia.
Qed.

Lemma pos_neq (a : Qc) : 0 < a -> a <> 0.
Proof. intros H E. apply (Qclt_not_eq _ _ H). now symmetry. Qed.

Lemma mult_pos (a b : Qc) : 0 < a -> 0 < b -> 0 < a * b.
Proof.
  intros Ha Hb. rewrite <- (Qcmult_0_l b). now apply Qcmult_lt_compat_r.
Qed.

Lemma inv_pos (b : Qc) : 0 < b -> 0 < / b.
Proof.
  intros Hb. apply Qcnot_le_lt. intros H.
  apply (Qcmult_le_compat_r _ _ b) in H; [|now apply Qclt_le_weak].
  rewrite Qcmult_0_l, Qcmult_inv_l in H by now apply pos_neq.
  revert H. apply Qclt_not_le. apply ltb_lt. reflexivity.
Qed.

Lemma div_pos (a b : Qc) : 0 < a -> 0 < b -> 0 < a / b.
Proof. intros Ha Hb. apply mult_pos; [exact Ha|now apply inv_pos]. Qed.

(** The spacing of the smoothed time axis for [count] closings. *)
Lemma smooth_x_nth (closings xs ys : list Qc) (i : nat) :
  smooth closings = Ok (xs, ys) ->
  (i < 4 * length closings - 1)%nat ->
  nth i xs 0 =
  Num.of_nat (S i) * time_step (length closings) + Num.half.
Proof.
  intros E Hi. destruct (smooth_lengths _ E) as (N & _ & _).
  destruct (smooth_ok closings N) as (d0 & ds & c0 & di & _ & _ & _ & _ & E').
  rewrite E' in E. injection E as <- _.
  fold (grid (length closings)).
  rewrite map_nth_in.
  - rewrite nth_tl, grid_nth by lia. reflexivity.
  - rewrite length_tl. unfold grid. rewrite linspace_length. lia.
Qed.

(** X1. The smoothed times of N >= 2 closings are equally spaced by
    (N-1)/(4N-1), which is positive, so they increase strictly; the last one
    is N - 1/2. *)
Theorem smooth_times_uniform (closings xs ys : list Qc) :
  smooth closings = Ok (xs, ys) ->
  0 < time_step (length closings) /\
  (forall i, (S i < length xs)%nat ->
     nth (S i) xs 0 = nth i xs 0 + time_step (length closings) /\
     nth i xs 0 < nth (S i) xs 0) /\
  nth (length xs - 1) xs 0 = Num.of_nat (length closings - 1) + Num.half.
Proof.
  intros E. destruct (smooth_lengths _ E) as (N & Lx & _).
  assert (P : 0 < time_step (length closings)).
  { unfold time_step. apply div_pos; apply of_nat_pos; lia. }
  split; [exact P|]. split.
  - intros i Hi.
    assert (S : nth (S i) xs 0 = nth i xs 0 + time_step (length closings)).
    { rewrite !(smooth_x_nth _ E) by lia. rewrite (of_nat_S (S i)). ring. }
    split; [exact S|]. rewrite S.
    apply Qclt_minus_iff.
    replace (nth i xs 0 + time_step (length closings) + - nth i xs 0)
      with (time_step (length closings)) by ring.
    exact P.
  - rewrite (smooth_x_nth _ E) by lia.
    replace (S (length xs - 1)) with (length closings * 4 - 1)%nat by lia.
    unfold time_step. f_equal. field.
    apply pos_neq, of_nat_pos. lia.
Qed.

Lemma smooth_times_uniform_witness :
  0 < time_step 2 /\
  (forall i, (S i < length (fst (smoothed [Num.of_Z 3; Num.of_Z 5])))%nat ->
     nth (S i) (fst (smoothed [Num.of_Z 3; Num.of_Z 5])) 0 =
       nth i (fst (smoothed [Num.of_Z 3; Num.of_Z 5])) 0 + time_step 2 /\
     nth i (fst (smoothed [Num.of_Z 3; Num.of_Z 5])) 0 <
       nth (S i) (fst (smoothed [Num.of_Z 3; Num.of_Z 5])) 0) /\
  nth (length (fst (smoothed [Num.of_Z 3; Num.of_Z 5])) - 1)
      (fst (smoothed [Num.of_Z 3; Num.of_Z 5])) 0 = Num.of_nat 1 + Num.half.
Proof.
  apply (@smooth_times_uniform [Num.of_Z 3; Num.of_Z 5]
           (fst (smoothed [Num.of_Z 3; Num.of_Z 5]))
           (snd (smoothed [Num.of_Z 3; Num.of_Z 5]))).
  reflexivity.
Defined.

Lemma diff_shift (k : Qc) (l : list Qc) :
  Np.diff (map (fun c => c + k) l) = Np.diff l.
Proof.
  induction l as [|a [|b l'] IH]; try reflexivity.
  change (Np.diff (map (fun c => c + k) (a :: b :: l')))
    with ((b + k - (a + k)) :: Np.diff (map (fun c => c + k) (b :: l'))).
  rewrite IH.
  change (Np.diff (a :: b :: l')) with ((b - a) :: Np.diff (b :: l')).
  f_equal. ring.
Qed.

Lemma diff_scale (k : Qc) (l : list Qc) :
  Np.diff (map (fun c => k * c) l) = map (fun c => k * c) (Np.diff l).
Proof.
  induction l as [|a [|b l'] IH]; try reflexivity.
  change (Np.diff (map (fun c => k * c) (a :: b :: l')))
    with ((k * b - k * a) :: Np.diff (map (fun c => k * c) (b :: l'))).
  rewrite IH.
  change (Np.diff (a :: b :: l')) with ((b - a) :: Np.diff (b :: l')).
  cbn [map]. f_equal. ring.
Qed.

Lemma interp_from_scale (k x x0 f0 : Qc) (xp fp : list Qc) :
  Np.interp_from x x0 (k * f0) xp (map (fun c => k * c) fp) =
  k * Np.interp_from x x0 f0 xp fp.
Proof.
  revert x0 f0 fp. induction xp as [|x1 xp IH]; intros x0 f0 fp; [reflexivity|].
  destruct fp as [|f1 fp]; [reflexivity|]. cbn [map Np.interp_from].
  destruct (Num.ltb x x1); [|apply IH].
  unfold Qcdiv. ring.
Qed.

Lemma interp_scale (k : Qc) (x xp fp : list Qc) :
  Np.interp x xp (map (fun c => k * c) fp) =
  match Np.interp x xp fp with
  | Ok di => Ok (map (fun c => k * c) di)
  | Err e => Err e
  end.
Proof.
  unfold Np.interp. destruct xp as [|x0 xp]; [reflexivity|].
  destruct fp as [|f0 fp]; [reflexivity|]. cbn [map]. f_equal.
  rewrite map_map. apply map_ext. intros v.
  destruct (Num.ltb v x0); [reflexivity|apply interp_from_scale].
Qed.

Lemma cumtrapz_from_scale (k acc : Qc) (y x : list Qc) :
  Np.cumtrapz_from (k * acc) (map (fun c => k * c) y) x =
  map (fun c => k * c) (Np.cumtrapz_from acc y x).
Proof.
  revert acc x. induction y as [|y0 [|y1 y'] IH]; intros acc x.
  - reflexivity.
  - destruct x as [|x0 [|x1 x']]; reflexivity.
  - destruct x as [|x0 [|x1 x']]; try reflexivity.
    change (map (fun c => k * c) (y0 :: y1 :: y'))
      with (k * y0 :: k * y1 :: map (fun c => k * c) y').
    rewrite !cumtrapz_from_cons. cbn [map].
    replace (k * acc + (x1 - x0) * (k * y1 + k * y0) / Num.two)
      with (k * (acc + (x1 - x0) * (y1 + y0) / Num.two))
      by (unfold Qcdiv; ring).
    f_equal. apply (IH (acc + (x1 - x0) * (y1 + y0) / Num.two) (x1 :: x')).
Qed.

Lemma smooth_shift (k : Qc) (closings : list Qc) :
  smooth (map (fun c => c + k) closings) =
  match smooth closings with
  | Ok (xs, ys) => Ok (xs, map (fun y => y + k) ys)
  | Err e => Err e
  end.
Proof.
  unfold smooth. rewrite diff_shift, length_map.
  destruct (Np.interp _ _ _) as [di|e]; [|reflexivity].
  destruct closings as [|c0 cl]; [reflexivity|].
  cbn [map Py.index nth_error]. do 2 f_equal.
  rewrite map_map. apply map_ext. intros v. ring.
Qed.

Lemma smooth_scale (k : Qc) (closings : list Qc) :
  smooth (map (fun c => k * c) closings) =
  match smooth closings with
  | Ok (xs, ys) => Ok (xs, map (fun y => k * y) ys)
  | Err e => Err e
  end.
Proof.
  unfold smooth. rewrite diff_scale, !length_map, interp_scale.
  destruct (Np.interp _ _ _) as [di|e]; [|reflexivity].
  destruct closings as [|c0 cl]; [reflexivity|].
  cbn [map Py.index nth_error]. do 2 f_equal.
  unfold Np.cumtrapz. rewrite <- (Qcmult_0_r k) at 1.
  rewrite cumtrapz_from_scale, !map_map. apply map_ext. intros v. ring.
Qed.

(** X2. The smoothing step commutes with every affine change of the price
    unit: smoothing the closings [k * c + b] gives the same times and the
    smoothed prices [k * y + b], and raises exactly when smoothing the
    closings [c] does. *)
Theorem smooth_affine (k b : Qc) (closings : list Qc) :
  smooth (map (fun c => k * c + b) closings) =
  match smooth closings with
  | Ok (xs, ys) => Ok (xs, map (fun y => k * y + b) ys)
  | Err e => Err e
  end.
Proof.
  rewrite <- (map_map (fun c => k * c) (fun c => c + b)).
  rewrite smooth_shift, smooth_scale.
  destruct (smooth closings) as [[xs ys]|e]; [|reflexivity].
  now rewrite map_map.
Qed.

(** ** The back-test: what a call records *)

(** The ledger a call leaves is the ledger of an observable state of its
    run, or the one it started with when the smoothing raises. *)
Lemma backtest_ledger (W : Type) (fee : Qc) (closings : list Qc) (st : State W) :
  match smooth closings with
  | Err _ =>
      _transactions (fst (snd (backtest fee closings st))) = _transactions (fst st)
  | Ok (xs, ys) =>
      exists st1,
        observable fee closings st st1 /\
        _x_smooth (fst st1) = xs /\ _y_smooth (fst st1) = ys /\
        _transactions (fst (snd (backtest fee closings st)))
          = _transactions (fst st1)
  end.
Proof.
  destruct (smooth closings) as [[xs ys]|e] eqn:E.
  - destruct (@backtest_run W fee closings xs ys st E) as (st1 & O & [[e R]|[_ R]]);
      exists st1; rewrite R;
      destruct (observable_fields O) as (xs' & ys' & E' & Ex & Ey & _);
      rewrite E in E'; injection E' as <- <-; auto.
  - now rewrite backtest_smooth_err with (e := e) by exact E.
Qed.

(** X3. The transactions that one [backtest] call appends to the ledger,
    whether it returns or raises, alternate between opening and closing ones
    and start with an opening one: a strategy that asks to open while a
    position is held, or to close while none is, records nothing. *)
Theorem ledger_alternates (W : Type) (fee : Qc) (closings : list Qc) (st : State W) :
  exists added,
    _transactions (fst (snd (backtest fee closings st)))
      = _transactions (fst st) ++ added /\
    alternates true added = true.
Proof.
  pose proof (backtest_ledger fee closings st) as L.
  destruct (smooth closings) as [[xs ys]|e].
  - destruct L as (st1 & O & _ & _ & ->).
    destruct (observable_added O) as (added & Et & Alt & _).
    exists added. auto.
  - exists []. rewrite app_nil_r. auto.
Qed.

(** X4. Every transaction that a [backtest] call appends carries the time
    and the price of the smoothed series at one index [i] of the loop,
    [100 <= i < L]: no entry refers to the warm-up. *)
Theorem ledger_entries_after_warmup
        (W : Type) (fee : Qc) (closings : list Qc) (st : State W) :
  exists added,
    _transactions (fst (snd (backtest fee closings st)))
      = _transactions (fst st) ++ added /\
    Forall (recorded_at (fst (smoothed closings)) (snd (smoothed closings))) added.
Proof.
  pose proof (backtest_ledger fee closings st) as L. unfold smoothed.
  destruct (smooth closings) as [[xs ys]|e] eqn:E.
  - destruct L as (st1 & O & Ex & Ey & Et).
    destruct (observable_added O) as (added & Ea & _ & _ & _ & Rec).
    exists added. rewrite Et, Ex, Ey in *. split; [exact Ea|exact Rec].
  - exists []. rewrite app_nil_r. split; [exact L|constructor].
Qed.

(** X5. After a [backtest] call, returned or raised, the accessors
    [getSmoothX] and [getSmoothY] give the smoothed series of the closings of
    that call when its smoothing succeeded; when the smoothing raised they
    still give the series of the previous run, next to a portfolio that is
    already reset to [usd = 100], [token = 0]. *)
Theorem smoothed_series_after_backtest
        (W : Type) (fee : Qc) (closings : list Qc) (st : State W) :
  let self' := fst (snd (backtest fee closings st)) in
  match smooth closings with
  | Ok (xs, ys) => getSmoothX self' = xs /\ getSmoothY self' = ys
  | Err _ =>
      getSmoothX self' = getSmoothX (fst st) /\
      getSmoothY self' = getSmoothY (fst st) /\
      _usd self' = Num.hundred /\ _token self' = 0
  end.
Proof.
  intros self'. unfold self', getSmoothX, getSmoothY.
  destruct (smooth closings) as [[xs ys]|e] eqn:E.
  - destruct (@backtest_run W fee closings xs ys st E) as (st1 & O & [[e R]|[_ R]]);
      rewrite R;
      destruct (observable_fields O) as (xs' & ys' & E' & Ex & Ey & _);
      rewrite E in E'; injection E' as <- <-; cbn; auto.
  - rewrite backtest_smooth_err with (e := e) by exact E. cbn. auto.
Qed.

(** ** The back-test: no short position *)

Lemma hundred_pos : 0 < Num.hundred.
Proof. apply ltb_lt. reflexivity. Qed.

Lemma one_minus_pos (fee : Qc) : fee < 1 -> 0 < 1 - fee.
Proof. intros H. now apply Qclt_minus_iff in H. Qed.

Lemma nth_pos (ys : list Qc) (i : nat) :
  Forall (fun p => 0 < p) ys -> (i < length ys)%nat -> 0 < nth i ys 0.
Proof.
  intros F H. rewrite Forall_forall in F. apply F. now apply nth_In.
Qed.

Lemma mult_nonneg (a b : Qc) : 0 <= a -> 0 <= b -> 0 <= a * b.
Proof.
  intros Ha Hb. rewrite <- (Qcmult_0_l b). now apply Qcmult_le_compat_r.
Qed.

Lemma plus_nonneg (a b : Qc) : 0 <= a -> 0 <= b -> 0 <= a + b.
Proof.
  intros Ha Hb. rewrite <- (Qcplus_0_l 0). now apply Qcplus_le_compat.
Qed.

Lemma observable_nonnegative (W : Type) (fee : Qc) (closings : list Qc)
      (st0 st : State W) :
  fee < 1 ->
  (forall xs ys, smooth closings = Ok (xs, ys) -> Forall (fun p => 0 < p) ys) ->
  observable fee closings st0 st -> nonnegative (fst st).
Proof.
  intros Hfee Hys O. pose proof (one_minus_pos Hfee) as F.
  induction O as [xs ys E|[self w] index s O IH Hi Hs].
  - split; cbn; [apply Qclt_le_weak, hundred_pos|apply Qcle_refl].
  - destruct (observable_wf _ O Hi) as [Wi Wl].
    destruct (observable_fields O) as (xs & ys & E & Ex & Ey & _).
    cbn [fst snd] in *.
    assert (P : 0 < nth (index - 1) (_y_smooth self) 0).
    { rewrite Ey. apply nth_pos; [now apply (Hys xs)|]. rewrite <- Ey. lia. }
    rewrite (trade_eq fee s self w Wi Wl). cbv zeta.
    destruct (fst (s w _ _ _)) as [m|e]; cbn [fst snd]; [|exact IH].
    destruct (is_motion OPEN m && _) eqn:C1;
      [|destruct (is_motion CLOSE m && _) eqn:C2]; cbn [fst snd];
      try exact IH.
    + apply andb_prop in C1 as [_ C1]. apply ltb_lt in C1.
      split; cbn; [apply Qcle_refl|].
      apply Qclt_le_weak, mult_pos; [apply div_pos; assumption|exact F].
    + apply andb_prop in C2 as [_ C2]. apply ltb_lt in C2.
      split; cbn; [|apply Qcle_refl].
      apply Qclt_le_weak, mult_pos; [apply mult_pos; assumption|exact F].
Qed.

(** X6. The executor never shorts: in a run with a fee below 1 whose
    smoothed prices are all positive, neither [usd] nor [token] is negative
    in any state observable between trades, and the final equity of a run
    that returns is not negative. *)
Theorem never_short
        (W : Type) (fee : Qc) (closings : list Qc) (st0 : State W) :
  fee < 1 ->
  (forall xs ys, smooth closings = Ok (xs, ys) -> Forall (fun p => 0 < p) ys) ->
  (forall st, observable fee closings st0 st -> nonnegative (fst st)) /\
  (forall baseline final st',
     backtest fee closings st0 = (Ok (baseline, final), st') -> 0 <= final).
Proof.
  intros Hfee Hys. split.
  - intros st. now apply observable_nonnegative.
  - intros baseline final st' H.
    pose proof (fun st => @observable_nonnegative W fee closings st0 st Hfee Hys) as X.
    destruct (smooth closings) as [[xs ys]|e] eqn:E.
    2: { rewrite backtest_smooth_err with (e := e) in H by exact E. discriminate. }
    destruct (@backtest_run W fee closings xs ys st0 E) as (st1 & O & [[e R]|[Long R]]);
      rewrite R in H; [discriminate|].
    injection H as _ <- _.
    destruct (smooth_lengths _ E) as (_ & Lx & Ly).
    assert (P : 0 < nth (length ys - 2) ys 0)
      by (apply nth_pos; [exact (Hys xs ys eq_refl)|lia]).
    pose proof (one_minus_pos Hfee) as F.
    destruct (X _ O) as [Hu Ht].
    apply plus_nonneg; [exact Hu|].
    apply mult_nonneg; [apply mult_nonneg|]; try assumption;
      now apply Qclt_le_weak.
Qed.

Lemma scenarioA_positive :
  forall xs ys, smooth scenarioA_closings = Ok (xs, ys) -> Forall (fun p => 0 < p) ys.
Proof.
  intros xs ys E. rewrite scenarioA_smooth in E.
  apply Ok_inj in E. replace ys with (snd scenarioA_smoothed) by now rewrite E.
  apply positive_forallb. vm_compute. reflexivity.
Qed.

Lemma never_short_witness :
  (forall st, observable 0 scenarioA_closings scenarioB_start st ->
     nonnegative (fst st)) /\
  (forall baseline final st',
     backtest 0 scenarioA_closings scenarioB_start = (Ok (baseline, final), st') ->
     0 <= final).
Proof.
  apply (@never_short bool 0 scenarioA_closings scenarioB_start).
  - apply ltb_lt. reflexivity.
  - exact scenarioA_positive.
Defined.

(** ** The back-test without a strategy *)

Lemma loop_no_strategies (W : Type) (fee : Qc) (range : list nat)
      (y : option (list Qc)) (st : State W) :
  _strategies (fst st) = [] ->
  loop fee range y st = (Ok (last_window (_y_smooth (fst st)) range y), st).
Proof.
  intros H. revert y. induction range as [|index range IH]; intros y.
  - reflexivity.
  - cbn [loop]. unfold bind at 1. unfold iteration.
    unfold bind at 1. unfold get at 1.
    unfold bind at 1. unfold get at 1.
    unfold bind at 1. unfold get at 1. rewrite H.
    cbn [for_each]. unfold bind, ret. apply IH.
Qed.

(** X7. An executor with no registered strategy does not invest: on a series
    whose smoothed length exceeds 100, [backtest] returns the baseline
    together with a final equity of exactly 100, records no transaction and
    leaves the store of strategy objects alone. *)
Theorem backtest_without_strategies
        (W : Type) (fee : Qc) (closings xs ys : list Qc)
        (self : StrategyExecutor W) (w : W) :
  _strategies self = [] ->
  smooth closings = Ok (xs, ys) ->
  (100 < length xs)%nat ->
  backtest fee closings (self, w) =
    (Ok (Num.hundred / nth 0 ys 0 * nth (length ys - 1) ys 0 * (1 - fee) ^ 2,
         Num.hundred),
     (started xs ys self, w)).
Proof.
  intros Hs E Long.
  rewrite backtest_smooth_ok with (xs := xs) (ys := ys) by exact E.
  rewrite loop_no_strategies by exact Hs.
  cbn [fst snd started _y_smooth].
  rewrite last_window_range by exact Long.
  destruct (smooth_lengths _ E) as (_ & Lx & Ly).
  assert (P : Py.last (Py.slice ys (length xs - 1 - 100) (length xs - 1))
              = Ok (nth (length ys - 2) ys 0)).
  { rewrite window_last by lia. do 2 f_equal. lia. }
  rewrite liquidate_bound with (price := nth (length ys - 2) ys 0) by exact P.
  cbn [_usd _token with_portfolio _strategies _transactions _x_smooth _y_smooth].
  replace (Num.hundred + 0 * nth (length ys - 2) ys 0 * (1 - fee))
    with Num.hundred by ring.
  reflexivity.
Qed.

Lemma backtest_without_strategies_witness :
  backtest 0 scenarioA_closings (@init unit, tt) =
    (Ok (Num.hundred / nth 0 (snd scenarioA_smoothed) 0
         * nth (length (snd scenarioA_smoothed) - 1) (snd scenarioA_smoothed) 0
         * (1 - 0) ^ 2,
         Num.hundred),
     (started (fst scenarioA_smoothed) (snd scenarioA_smoothed) init, tt)).
Proof.
  apply (@backtest_without_strategies unit 0 scenarioA_closings
           (fst scenarioA_smoothed) (snd scenarioA_smoothed) init tt).
  - reflexivity.
  - rewrite scenarioA_smooth. now destruct scenarioA_smoothed.
  - apply Nat.ltb_lt. vm_compute. reflexivity.
Defined.

(** ** The back-test: how much a call can record *)

Ltac fields :=
  cbn [fst snd _usd _token _strategies _transactions _x_smooth _y_smooth].

Ltac split_res :=
  match goal with
  | |- context [match ?r with Ok _ => _ | Err _ => _ end] =>
      destruct r; fields
  end.

Lemma trade_growth (W : Type) (fee : Qc) (index : nat) (x y : list Qc)
      (s : Strategy W) (st : State W) :
  let st' := snd (trade fee index x y s st) in
  _strategies (fst st') = _strategies (fst st) /\
  (length (_transactions (fst st')) <= S (length (_transactions (fst st))))%nat.
Proof.
  destruct st as [[usd token strats txs sx sy] w].
  unfold trade, bind, get, lift, call_tick, set_usd, set_token,
    append_transaction, ret.
  fields.
  destruct (s w (Num.ltb 0 token) x y) as [[m|e] w']; fields.
  2: { split; [reflexivity|lia]. }
  destruct (is_motion OPEN m && Num.ltb 0 usd);
    [|destruct (is_motion CLOSE m && Num.ltb 0 token)];
    repeat split_res;
    (split; [reflexivity|rewrite ?length_app; simpl; lia]).
Qed.

Lemma for_each_growth (W : Type) (fee : Qc) (index : nat) (x y : list Qc)
      (l : list (Strategy W)) (st : State W) :
  let st' := snd (for_each l (trade fee index x y) st) in
  _strategies (fst st') = _strategies (fst st) /\
  (length (_transactions (fst st')) <= length (_transactions (fst st)) + length l)%nat.
Proof.
  revert st. induction l as [|s l IH]; intros st.
  - cbn. split; [reflexivity|lia].
  - cbn [for_each length]. unfold bind.
    pose proof (trade_growth fee index x y s st) as [Ts Tl].
    destruct (trade fee index x y s st) as [[[]|e] st1]; cbn [snd] in *.
    + destruct (IH st1) as [Is Il]. split; [congruence|lia].
    + split; [exact Ts|lia].
Qed.

Lemma loop_growth (W : Type) (fee : Qc) (range : list nat)
      (y : option (list Qc)) (st : State W) :
  let st' := snd (loop fee range y st) in
  _strategies (fst st') = _strategies (fst st) /\
  (length (_transactions (fst st')) <=
   length (_transactions (fst st)) + length range * length (_strategies (fst st)))%nat.
Proof.
  revert y st. induction range as [|index range IH]; intros y st.
  - cbn. split; [reflexivity|lia].
  - cbv zeta. rewrite loop_cons. cbn [length Nat.mul].
    pose proof (for_each_growth fee index
                  (Py.slice (_x_smooth (fst st)) (index - 100) index)
                  (Py.slice (_y_smooth (fst st)) (index - 100) index)
                  (_strategies (fst st)) st) as [Fs Fl].
    destruct (for_each _ _ st) as [[[]|e] st1]; cbn [snd] in *.
    + destruct (IH (Some (Py.slice (_y_smooth (fst st)) (index - 100) index)) st1)
        as [Is Il].
      rewrite Fs in Il. split; [congruence|lia].
    + split; [exact Fs|lia].
Qed.

(** X8. A [backtest] call appends at most one transaction per registered
    strategy and loop index: the ledger grows by at most
    [(L - 100) * number of strategies] entries, where [L] is the smoothed
    length, and by none when the smoothing raises or [L <= 100]. *)
Theorem ledger_growth_bound (W : Type) (fee : Qc) (closings : list Qc) (st : State W) :
  (length (_transactions (fst (snd (backtest fee closings st)))) <=
   length (_transactions (fst st))
   + (length (fst (smoothed closings)) - 100) * length (_strategies (fst st)))%nat.
Proof.
  unfold smoothed. destruct (smooth closings) as [[xs ys]|e] eqn:E.
  - rewrite backtest_smooth_ok with (xs := xs) (ys := ys) by exact E.
    pose proof (loop_growth fee (py_range 100 (length xs)) None
                  (started xs ys (fst st), snd st)) as [_ Ll].
    cbn [fst snd started _transactions _strategies] in Ll.
    unfold py_range in Ll at 2. rewrite length_seq in Ll.
    destruct (loop fee _ None _) as [[y|e] st1]; cbn [fst snd] in *; [|exact Ll].
    pose proof (liquidate_frame fee y st1) as (_ & _ & Lt & _ & _).
    destruct (liquidate fee y st1) as [[u|e] st2]; cbn [fst snd] in *;
      rewrite Lt; exact Ll.
  - rewrite backtest_smooth_err with (e := e) by exact E. cbn. lia.
Qed.

(** ** Opening and closing at every tick *)

Lemma steps_open_close (fee : Qc) (xs ys : list Qc) (index : nat)
      (self : StrategyExecutor unit) :
  0 < _usd self -> _token self = 0 -> 0 < nth (index - 1) ys 0 -> fee < 1 ->
  steps_at fee xs ys index [opening_tick; closing_tick] (self, tt) =
    (Ok tt,
     (mkExecutor (_usd self * (1 - fee) ^ 2) 0 (_strategies self)
        (_transactions self
         ++ [(nth index xs 0, nth index ys 0, true);
             (nth index xs 0, nth index ys 0, false)])
        xs ys, tt)).
Proof.
  intros Hu Ht Hp Hfee. pose proof (one_minus_pos Hfee) as F.
  cbn [steps_at]. unfold step_at at 1. cbn [fst snd opening_tick is_motion].
  apply ltb_lt in Hu. rewrite Hu. cbn [andb].
  unfold step_at. cbn [fst snd closing_tick is_motion andb _token _usd
                        _strategies _transactions].
  assert (Tk : Num.ltb 0 (_usd self / nth (index - 1) ys 0 * (1 - fee)) = true).
  { apply ltb_lt. apply mult_pos; [apply div_pos|]; try assumption.
    now apply ltb_lt. }
  rewrite Tk. rewrite <- app_assoc. cbn [app].
  do 3 f_equal. cbn [Qcpower]. field. now apply pos_neq.
Qed.

Lemma run_open_close (fee : Qc) (xs ys : list Qc) (range : list nat)
      (self : StrategyExecutor unit) :
  0 < _usd self -> _token self = 0 -> fee < 1 ->
  (forall index, In index range -> 0 < nth (index - 1) ys 0) ->
  exists self',
    run_at fee xs ys range [opening_tick; closing_tick] (self, tt)
      = (Ok tt, (self', tt)) /\
    _usd self' = _usd self * ((1 - fee) ^ 2) ^ length range /\
    _token self' = _token self /\
    length (_transactions self')
      = (length (_transactions self) + 2 * length range)%nat.
Proof.
  intros Hu Ht Hfee. revert self Hu Ht.
  induction range as [|index range IH]; intros self Hu Ht Hp.
  - exists self. cbn. repeat split; [ring|lia].
  - cbn [run_at].
    rewrite steps_open_close by (try assumption; apply Hp; now left).
    pose proof (one_minus_pos Hfee) as F.
    destruct (IH (mkExecutor (_usd self * (1 - fee) ^ 2) 0 (_strategies self)
                    (_transactions self
                     ++ [(nth index xs 0, nth index ys 0, true);
                         (nth index xs 0, nth index ys 0, false)])
                    xs ys))
      as (self' & R & Eu & Et & El).
    + cbn [_usd Qcpower]. rewrite Qcmult_1_r. now repeat apply mult_pos.
    + reflexivity.
    + intros i Hi. apply Hp. now right.
    + exists self'. split; [exact R|].
      cbn [_usd _token _transactions] in Eu, Et, El.
      rewrite Eu, Et, El, Ht, length_app. cbn [length Qcpower].
      repeat split; [ring|lia].
Qed.

(** X9. In exact arithmetic, with a strategy that always asks to open
    registered before one that always asks to close, a fee below 1 and
    positive smoothed prices, [backtest] opens and closes at every one of its
    L - 100 loop indices, each time at one and the same price, so every tick
    costs the fee twice: the run returns the final equity
    [100 * ((1 - fee)^2)^(L - 100)] and appends [2 * (L - 100)] transactions.
    (In binary64 the cash can be rounded to 0 on the way, after which no
    further trade is made: [F64.halving_run] records 1082 transactions.) *)
Theorem open_close_every_tick
        (fee : Qc) (closings xs ys : list Qc) (self : StrategyExecutor unit) :
  _strategies self = [opening_tick; closing_tick] ->
  smooth closings = Ok (xs, ys) ->
  (100 < length xs)%nat ->
  fee < 1 ->
  Forall (fun p => 0 < p) ys ->
  exists baseline st',
    backtest fee closings (self, tt) =
      (Ok (baseline, Num.hundred * ((1 - fee) ^ 2) ^ (length xs - 100)), st') /\
    length (_transactions (fst st'))
      = (length (_transactions self) + 2 * (length xs - 100))%nat.
Proof.
  intros Hs E Long Hfee Hys.
  destruct (smooth_lengths _ E) as (_ & Lx & Ly).
  rewrite (@backtest_as_run unit fee closings xs ys (self, tt) E).
  cbn [fst snd]. rewrite Hs.
  destruct (@run_open_close fee xs ys (py_range 100 (length xs)) (started xs ys self))
    as (self' & R & Eu & Et & El).
  - exact hundred_pos.
  - reflexivity.
  - exact Hfee.
  - intros i Hi. apply in_py_range in Hi. apply nth_pos; [exact Hys|lia].
  - rewrite R. destruct (Nat.leb_spec (length xs) 100) as [Short|_]; [lia|].
    cbv zeta. cbn [fst snd]. eexists. eexists. split.
    + do 3 f_equal. rewrite Eu, Et. cbn [started _usd _token].
      unfold py_range. rewrite length_seq. ring.
    + cbn [fst with_portfolio _transactions]. rewrite El.
      cbn [started _transactions]. unfold py_range. now rewrite length_seq.
Qed.

Lemma open_close_every_tick_witness :
  exists baseline st',
    backtest (tradeFee default_params) scenarioA_closings
      (addStrategy closing_tick (addStrategy opening_tick init), tt) =
      (Ok (baseline,
           Num.hundred * ((1 - tradeFee default_params) ^ 2)
                         ^ (length (fst scenarioA_smoothed) - 100)), st') /\
    length (_transactions (fst st'))
      = (length (_transactions
                   (addStrategy closing_tick (addStrategy opening_tick (@init unit))))
         + 2 * (length (fst scenarioA_smoothed) - 100))%nat.
Proof.
  apply (@open_close_every_tick (tradeFee default_params) scenarioA_closings
           (fst scenarioA_smoothed) (snd scenarioA_smoothed)
           (addStrategy closing_tick (addStrategy opening_tick init))).
  - reflexivity.
  - rewrite scenarioA_smooth. now destruct scenarioA_smoothed.
  - apply Nat.ltb_lt. vm_compute. reflexivity.
  - apply ltb_lt. vm_compute. reflexivity.
  - apply positive_forallb. vm_compute. reflexivity.
Defined.

(** ** [LinRegStrategy.tick]: errors, the trailing stop and the motions *)

Section LinRegFacts.

Variable polyfit1 : list Qc -> list Qc -> Qc * Qc.
Variable np_std : list Qc -> Qc.

Lemma fitLine_err (x y : list Qc) (e : PyExc) :
  _fitLine polyfit1 x y = Err e -> e = TypeError.
Proof.
  unfold _fitLine. destruct x; [congruence|].
  destruct (Nat.eqb _ _); congruence.
Qed.

Lemma fitLine_inv (x y : list Qc) (r : Qc * Qc) :
  _fitLine polyfit1 x y = Ok r -> (0 < length x)%nat /\ length x = length y.
Proof.
  unfold _fitLine. destruct x as [|a x]; [discriminate|].
  destruct (Nat.eqb_spec (length (a :: x)) (length y)); [|discriminate].
  intros _. split; [simpl; lia|assumption].
Qed.

Lemma upto_length_le (l : list Qc) (k : Z) :
  (length (Py.upto l k) <= length l)%nat.
Proof. unfold Py.upto. rewrite length_firstn. lia. Qed.

Lemma last_err (l : list Qc) (e : PyExc) : Py.last l = Err e -> l = [].
Proof.
  destruct l as [|a l]; [reflexivity|].
  rewrite (last_nth 0) by discriminate. discriminate.
Qed.

Lemma py_max_ge (a b : Qc) : a <= Num.py_max a b.
Proof.
  unfold Num.py_max. destruct (Num.ltb a b) eqn:E.
  - apply Qclt_le_weak. now apply ltb_lt.
  - apply Qcle_refl.
Qed.

(** Every way a call of [tick] can end. *)
Lemma tick_outcome (self : LinRegStrategy) (open : bool) (times prices : list Qc) :
  let r := fst (tick polyfit1 np_std self open times prices) in
  let self' := snd (tick polyfit1 np_std self open times prices) in
  _params self' = _params self /\
  match r with
  | Err e => e = TypeError /\ self' = self
  | Ok (Some OPEN) =>
      open = false /\
      exists price,
        Py.last prices = Ok price /\
        _sellBar self' =
          price * (1 - lossMargin (_params self)
                   + Num.two * tradeFee (_params self))
  | Ok (Some CLOSE) => open = true /\ _sellBar self <= _sellBar self'
  | Ok None => _sellBar self <= _sellBar self'
  end.
Proof.
  cbv zeta. unfold tick.
  destruct (_fitLine polyfit1 (Py.upto times _) (Py.upto prices _))
    as [[mS bS]|e] eqn:F1.
  2: { cbn. split; [reflexivity|]. split; [now apply fitLine_err in F1|reflexivity]. }
  destruct (_fitLine polyfit1 (Py.upto times (- longTermWindow _)) _)
    as [[mL bL]|e] eqn:F2.
  2: { cbn. split; [reflexivity|]. split; [now apply fitLine_err in F2|reflexivity]. }
  apply fitLine_inv in F1 as [N1 L1].
  pose proof (upto_length_le times (- shortTermWindow (_params self))) as U1.
  pose proof (upto_length_le prices (- shortTermWindow (_params self))) as U2.
  destruct (Py.last times) as [t_last|e] eqn:LT.
  2: { apply last_err in LT. subst times. simpl in U1. lia. }
  destruct (Py.last prices) as [price|e] eqn:LP.
  2: { apply last_err in LP. subst prices. simpl in U2. lia. }
  destruct (open && Num.leb price (_sellBar self)) eqn:C0.
  { cbn. split; [reflexivity|]. apply andb_prop in C0 as [-> _].
    split; [reflexivity|apply Qcle_refl]. }
  match goal with
  | |- context [if ?c && open then _ else _] => destruct (c && open) eqn:C1
  end.
  { cbn. split; [reflexivity|]. apply andb_prop in C1 as [_ ->].
    split; [reflexivity|apply py_max_ge]. }
  match goal with
  | |- context [if ?c && negb open then _ else _] => destruct (c && negb open) eqn:C2
  end.
  - cbn. split; [reflexivity|]. apply andb_prop in C2 as [_ C2].
    split; [now destruct open|]. exists price. auto.
  - cbn. split; [reflexivity|apply py_max_ge].
Qed.

Lemma sellBar_params (self : LinRegStrategy) (open : bool) (times prices : list Qc) :
  _params (snd (tick polyfit1 np_std self open times prices)) = _params self.
Proof. apply (tick_outcome self open times prices). Qed.

(** X10. The only exception [tick] raises is the [TypeError] of the fit (an
    empty truncated window, or samples of different lengths); a call that
    raises leaves the strategy, its trailing stop included, as it was. *)
Theorem tick_raises_only_TypeError
        (self : LinRegStrategy) (open : bool) (times prices : list Qc) (e : PyExc) :
  fst (tick polyfit1 np_std self open times prices) = Err e ->
  e = TypeError /\ snd (tick polyfit1 np_std self open times prices) = self.
Proof.
  intros H. pose proof (tick_outcome self open times prices) as [_ T].
  cbv zeta in T. rewrite H in T. exact T.
Qed.

(** X11. The trailing stop only ratchets upward: a call of [tick] never
    changes the configuration, and unless it answers [OPEN], which resets the
    stop relative to the entry price, the [_sellBar] it leaves is not below
    the one it found. *)
Theorem sellBar_ratchets
        (self : LinRegStrategy) (open : bool) (times prices : list Qc) :
  _params (snd (tick polyfit1 np_std self open times prices)) = _params self /\
  (fst (tick polyfit1 np_std self open times prices) <> Ok (Some OPEN) ->
   _sellBar self <= _sellBar (snd (tick polyfit1 np_std self open times prices))).
Proof.
  pose proof (tick_outcome self open times prices) as [P T]. cbv zeta in T.
  split; [exact P|]. intros H.
  destruct (fst (tick polyfit1 np_std self open times prices)) as [[[|]|]|e].
  - now elim H.
  - apply T.
  - exact T.
  - destruct T as [_ ->]. apply Qcle_refl.
Qed.

(** X12. [tick] never asks to open while a position is held and never asks
    to close while none is: an [OPEN] answer implies the flag [open] was
    false, a [CLOSE] answer implies it was true. *)
Theorem motion_matches_position
        (self : LinRegStrategy) (open : bool) (times prices : list Qc)
        (m : StrategyMotion) :
  fst (tick polyfit1 np_std self open times prices) = Ok (Some m) ->
  open = match m with OPEN => false | CLOSE => true end.
Proof.
  intros H. pose proof (tick_outcome self open times prices) as [_ T].
  cbv zeta in T. rewrite H in T. destruct m; apply T.
Qed.

Lemma upto_empty (l : list Qc) (w : Z) :
  (w = 0 \/ Z.of_nat (length l) <= w)%Z -> Py.upto l (- w) = [].
Proof.
  intros H. unfold Py.upto.
  destruct (Z.ltb_spec (- w) 0).
  - replace (Z.max 0 (Z.of_nat (length l) + - w)) with 0%Z by lia. reflexivity.
  - replace (Z.min (- w) (Z.of_nat (length l))) with (- w)%Z by lia.
    replace (- w)%Z with 0%Z by lia. reflexivity.
Qed.

(** X13. A window parameter that is 0, or at least the number of points
    handed to [tick], is a configuration error that surfaces at the first
    tick: the truncated sample is empty, [tick] raises [TypeError] and leaves
    the strategy as it was. *)
Theorem window_out_of_range_raises
        (self : LinRegStrategy) (open : bool) (times prices : list Qc) :
  (shortTermWindow (_params self) = 0
   \/ Z.of_nat (length times) <= shortTermWindow (_params self)
   \/ longTermWindow (_params self) = 0
   \/ Z.of_nat (length times) <= longTermWindow (_params self))%Z ->
  tick polyfit1 np_std self open times prices = (Err TypeError, self).
Proof.
  intros H. unfold tick.
  destruct (_fitLine polyfit1 (Py.upto times _) (Py.upto prices _))
    as [[mS bS]|e] eqn:F1.
  2: { now apply fitLine_err in F1 as ->. }
  assert (S : ~ (shortTermWindow (_params self) = 0
                 \/ Z.of_nat (length times) <= shortTermWindow (_params self))%Z).
  { intros S. apply fitLine_inv in F1 as [N1 _].
    rewrite upto_empty in N1 by exact S. simpl in N1. lia. }
  rewrite (@upto_empty times (longTermWindow (_params self))) by tauto.
  reflexivity.
Qed.

End LinRegFacts.

Lemma window_out_of_range_raises_witness :
  tick (fun _ _ => (0, 0)) (fun _ => 0)
       (new_LinRegStrategy (mkParams Num.two Num.two 10 100 0 0 0)) false
       (map Num.of_nat (seq 0 100)) (repeat 1 100)
  = (Err TypeError, new_LinRegStrategy (mkParams Num.two Num.two 10 100 0 0 0)).
Proof.
  apply (@window_out_of_range_raises (fun _ _ => (0, 0)) (fun _ => 0)
           (new_LinRegStrategy (mkParams Num.two Num.two 10 100 0 0 0)) false
           (map Num.of_nat (seq 0 100)) (repeat 1 100)).
  right. right. right. simpl. lia.
Defined.

Lemma tick_raises_only_TypeError_witness :
  TypeError = TypeError /\
  snd (tick (fun _ _ => (0, 0)) (fun _ => 0)
         (new_LinRegStrategy (mkParams Num.two Num.two 0 80 0 0 0)) false
         (map Num.of_nat (seq 0 100)) (repeat 1 100))
  = new_LinRegStrategy (mkParams Num.two Num.two 0 80 0 0 0).
Proof.
  apply (@tick_raises_only_TypeError (fun _ _ => (0, 0)) (fun _ => 0)
           (new_LinRegStrategy (mkParams Num.two Num.two 0 80 0 0 0)) false
           (map Num.of_nat (seq 0 100)) (repeat 1 100) TypeError).
  reflexivity.
Defined.

Lemma sellBar_ratchets_witness :
  _sellBar (mkLinReg default_params Num.two) <=
  _sellBar (snd (tick (fun _ _ => (0, 0)) (fun _ => 0)
                   (mkLinReg default_params Num.two) true
                   (map Num.of_nat (seq 0 100)) (repeat 1 100))).
Proof.
  apply (proj2 (@sellBar_ratchets (fun _ _ => (0, 0)) (fun _ => 0)
                  (mkLinReg default_params Num.two) true
                  (map Num.of_nat (seq 0 100)) (repeat 1 100))).
  intros H. vm_compute in H. discriminate H.
Defined.

Lemma motion_matches_position_witness :
  true = match CLOSE with OPEN => false | CLOSE => true end.
Proof.
  apply (@motion_matches_position (fun _ _ => (0, 0)) (fun _ => 0)
           (mkLinReg default_params Num.two) true
           (map Num.of_nat (seq 0 100)) (repeat 1 100) CLOSE).
  vm_compute. reflexivity.
Defined.

(** ** Strategies under the executor *)

Lemma tick_chain_invariant (W : Type) (ss : list (Strategy W)) (P : W -> Prop)
      (w w' : W) :
  (forall s, In s ss -> forall w0 open x y, P w0 -> P (snd (s w0 open x y))) ->
  tick_chain ss w w' -> P w -> P w'.
Proof.
  intros H C. induction C as [w|s w o x y w' Hs C IH]; [auto|].
  intros Pw. apply IH. now apply H.
Qed.

(** X14. Whatever every registered strategy's [tick] preserves, [backtest]
    preserves: a property of the store of strategy objects that holds before
    a call and is kept by each call of a registered [tick] holds after the
    call, returned or raised.  For registered [LinRegStrategy] objects this
    is the case of their configuration. *)
Theorem backtest_preserves_tick_invariants
        (W : Type) (P : W -> Prop) (fee : Qc) (closings : list Qc) (st : State W) :
  (forall s, In s (_strategies (fst st)) ->
     forall w open x y, P w -> P (snd (s w open x y))) ->
  P (snd st) ->
  P (snd (snd (backtest fee closings st))).
Proof.
  intros H Pw.
  destruct (backtest_frame fee closings st) as (_ & _ & C).
  exact (tick_chain_invariant P H C Pw).
Qed.

Lemma backtest_preserves_tick_invariants_witness :
  _params
    (snd (snd (backtest 0 scenarioA_closings
                 (addStrategy (tick (fun _ _ => (0, 0)) (fun _ => 0)) init,
                  new_LinRegStrategy default_params))))
  = default_params.
Proof.
  apply (@backtest_preserves_tick_invariants LinRegStrategy
           (fun w => _params w = default_params) 0 scenarioA_closings
           (addStrategy (tick (fun _ _ => (0, 0)) (fun _ => 0)) init,
            new_LinRegStrategy default_params)).
  - intros s [<-|[]] w open x y Pw.
    rewrite <- Pw. apply (sellBar_params (fun _ _ => (0, 0)) (fun _ => 0)).
  - reflexivity.
Defined.

(** ** Series that never reach the end of the warm-up *)

(** X15. On a series of N >= 2 closings whose smoothed length 4N - 1 is at
    most 100 no strategy is ever ticked: [backtest] raises at the liquidation
    with the store of strategy objects and the ledger untouched, the
    portfolio reset and the smoothed series stored. *)
Theorem warmup_never_reached
        (W : Type) (fee : Qc) (closings xs ys : list Qc)
        (self : StrategyExecutor W) (w : W) :
  smooth closings = Ok (xs, ys) ->
  (length xs <= 100)%nat ->
  backtest fee closings (self, w) =
    (Err UnboundLocalError, (started xs ys self, w)).
Proof.
  intros E Short.
  rewrite backtest_smooth_ok with (xs := xs) (ys := ys) by exact E.
  unfold py_range. replace (length xs - 100)%nat with 0%nat by lia.
  cbn [seq loop fst snd]. unfold ret. now rewrite liquidate_unbound.
Qed.

Lemma warmup_never_reached_witness :
  backtest 0 [Num.of_Z 7; Num.of_Z 8] (addStrategy stub_tick init, false) =
    (Err UnboundLocalError,
     (started (fst (smoothed [Num.of_Z 7; Num.of_Z 8]))
              (snd (smoothed [Num.of_Z 7; Num.of_Z 8]))
              (addStrategy stub_tick init), false)).
Proof.
  apply (@warmup_never_reached bool 0 [Num.of_Z 7; Num.of_Z 8]
           (fst (smoothed [Num.of_Z 7; Num.of_Z 8]))
           (snd (smoothed [Num.of_Z 7; Num.of_Z 8]))
           (addStrategy stub_tick init) false).
  - reflexivity.
  - apply Nat.leb_le. vm_compute. reflexivity.
Defined.

(** ** The baseline of a flat series *)

Lemma progression_flat (c : Qc) (n : nat) : progression c 0 n = repeat c n.
Proof.
  induction n as [|n IH]; [reflexivity|].
  cbn [progression repeat]. now rewrite Qcplus_0_r, IH.
Qed.

(** X16. On a flat series, all closings equal to one nonzero price, a run
    that returns reports the baseline [100 * (1 - fee)^2]: buying and selling
    at the same price only costs the fee twice. *)
Theorem flat_series_baseline
        (W : Type) (fee c : Qc) (n : nat) (st st' : State W) (baseline final : Qc) :
  c <> 0 ->
  backtest fee (repeat c n) st = (Ok (baseline, final), st') ->
  baseline = Num.hundred * (1 - fee) ^ 2.
Proof.
  intros Hc H.
  destruct (smooth (repeat c n)) as [[xs ys]|e] eqn:E.
  2: { rewrite backtest_smooth_err with (e := e) in H by exact E. discriminate. }
  destruct (smooth_lengths _ E) as (N & Lx & Ly). rewrite repeat_length in *.
  destruct (@backtest_run W fee (repeat c n) xs ys st E) as (st1 & _ & [[e R]|[_ R]]);
    rewrite R in H; [discriminate|].
  injection H as <- _ _.
  destruct (@smooth_progression c 0 n N) as (xs' & ys' & E' & _ & _ & P).
  rewrite progression_flat, E in E'. injection E' as <- <-.
  destruct (P 0%nat ltac:(lia)) as [_ ->].
  destruct (P (length ys - 1)%nat ltac:(lia)) as [_ ->].
  cbn [Qcpower]. field. intros Z. apply Hc. rewrite <- Z. ring.
Qed.

Lemma flat_series_baseline_witness :
  exists baseline final st',
    backtest (tradeFee default_params) (repeat Num.hundred 26) (@init unit, tt)
      = (Ok (baseline, final), st') /\
    baseline = Num.hundred * (1 - tradeFee default_params) ^ 2.
Proof.
  destruct (backtest (tradeFee default_params) (repeat Num.hundred 26) (@init unit, tt))
    as [[[baseline final]|e] st'] eqn:E.
  - exists baseline, final, st'. split; [reflexivity|].
    apply (@flat_series_baseline unit (tradeFee default_params) Num.hundred 26
             (init, tt) st' baseline final).
    + apply pos_neq, hundred_pos.
    + exact E.
  - exfalso.
    assert (X : is_ok (fst (Err (A := Qc * Qc) e, st')) = true)
      by (rewrite <- E; vm_compute; reflexivity).
    discriminate.
Defined.
